(** * The event registry of the blockchain-networks service, and the
      RAIR_ERC721 collection contract

    Shallow embedding of
    - [blockchain-networks-service/bin/utils/eventCatcherMapping.js]
      (the handler table [insertionMapping], the per-ABI extraction
      [getContractEvents] and the process-wide registry [masterMapping]);
    - the Solidity contract [RAIR_ERC721] ([createCollection], [mint],
      the views, [royaltyInfo] and the transfer hook
      [_beforeTokenTransfer]);
    - the dispatcher that consumes the registry, which the design document
      describes and whose code is elsewhere.

    JavaScript objects used as dictionaries are finite maps ([gmap]) of
    their own properties; a property access ([Js.get]) looks among them
    first and then among the members every object inherits from
    [Object.prototype].
    The lines the module writes on the console and the exceptions are
    threaded through a small effect monad. The two functions of the
    [ethers] library that the module calls are an interface
    ([utils.Ethers]), with the library's Keccak-256 as its reference
    implementation. Solidity's [uint] is [Z] with the compiler's overflow
    check written out. *)

From Stdlib Require Import ZArith Ascii String.
From stdpp Require Import gmap strings list fin_maps.

Local Open Scope string_scope.
Local Open Scope list_scope.

(** ** JavaScript evaluation: console output and exceptions *)

Module Js.

(** How the evaluation of an expression ends. *)
Inductive Completion (A : Type) : Type :=
| Normal (a : A)
| Throw.
Arguments Normal {A} a.
Arguments Throw {A}.

(** A computation reads the lines written with [console.error] so far and
    returns the console afterwards with its completion. *)
Definition Eff (A : Type) : Type := list string → list string * Completion A.

Definition ret {A} (a : A) : Eff A := λ con, (con, Normal a).

Definition bind {A B} (m : Eff A) (k : A → Eff B) : Eff B :=
  λ con, match m con with
         | (con', Normal a) => k a con'
         | (con', Throw) => (con', Throw)
         end.

Definition throw {A} : Eff A := λ con, (con, Throw).

(** [console.error(line)] *)
Definition console_error (line : string) : Eff unit :=
  λ con, (con ++ [line], Normal tt).

(** [l.forEach(f)] where the callback updates an object [s] it closes over. *)
Fixpoint forEach {A S} (f : S → A → Eff S) (l : list A) (s : S) : Eff S :=
  match l with
  | [] => ret s
  | x :: l' => bind (f s x) (forEach f l')
  end.

(** [s.split(sep)[0]]: the text before the first separator, the whole
    text when there is none. *)
Fixpoint split_head (sep : ascii) (s : string) : string :=
  match s with
  | EmptyString => EmptyString
  | String ch s' =>
      if Ascii.eqb ch sep then EmptyString else String ch (split_head sep s')
  end.

(** The value a computation returns when it starts on an empty console;
    [None] when it throws. *)
Definition value_of {A} (m : Eff A) : option A :=
  match (m []).2 with
  | Normal a => Some a
  | Throw => None
  end.

(** [{...target, ...source}]: the own properties of [source] are copied
    over those of [target]. *)
Definition spread {V} (target source : gmap string V) : gmap string V :=
  source ∪ target.

(** The names of the properties of [Object.prototype], which every object
    literal inherits: [Object.getOwnPropertyNames(Object.prototype)]. *)
Definition Object_prototype : list string :=
  [ "constructor"; "__defineGetter__"; "__defineSetter__"; "hasOwnProperty";
    "__lookupGetter__"; "__lookupSetter__"; "isPrototypeOf";
    "propertyIsEnumerable"; "toString"; "valueOf"; "__proto__";
    "toLocaleString" ].

(** [o[key]] on an object literal [o]: the own property of that name;
    without one, the member of [Object.prototype] of that name
    ([inherited key], none of them is [undefined]); [None], JavaScript's
    [undefined], when there is neither. *)
Definition get {V} (inherited : string → V) (o : gmap string V) (key : string)
  : option V :=
  match o !! key with
  | Some v => Some v
  | None => if decide (key ∈ Object_prototype) then Some (inherited key) else None
  end.

End Js.

Import Js.

Notation "'let*' x ':=' m 'in' k" := (bind m (λ x, k))
  (at level 10, x name, m at level 100, k at level 200, only parsing).
Notation "'exec' m 'then' k" := (bind m (λ _, k))
  (at level 10, m at level 100, k at level 200, only parsing).

(** ** ABIs *)

(** One input of a JSON ABI entry. *)
Record AbiInput := {
  input_type : string;
  input_name : string;
  indexed : bool;
}.

(** An element of an ABI array as [ethers] accepts it: a JSON object, or a
    line of text in the human-readable format. *)
Inductive AbiItem :=
| JsonFragment (type : string) (name : option string) (inputs : list AbiInput)
| HumanReadable (text : string).

#[global] Instance AbiInput_eq_dec : EqDecision AbiInput.
Proof. solve_decision. Defined.
#[global] Instance AbiItem_eq_dec : EqDecision AbiItem.
Proof. solve_decision. Defined.

(** [item.name]; [None] is JavaScript's [undefined] (a JSON entry without
    the property, such as a constructor, or a string). *)
Definition item_name (item : AbiItem) : option string :=
  match item with
  | JsonFragment _ name _ => name
  | HumanReadable _ => None
  end.

(** The two entry points of [ethers] that the module uses, under the name
    the source imports them by: [const { utils } = require('ethers')]. *)
Module utils.

Class Ethers := {
  (** [utils.id(text)]: the hexadecimal text of the Keccak-256 digest of
      the text. *)
  id : string → string;
  (** [new utils.Interface(abi)], observed through
      [Object.keys(abiInteface.events)]: the canonical signatures of the
      events of the ABI, in the order of the keys; [None] when the
      constructor throws on a fragment it does not accept. *)
  Interface : list AbiItem → option (list string);
}.

End utils.

(** The module [../integrations/ethers/contracts]: the ABIs the registry is
    built from. *)
Record Contracts := {
  erc721Abi : list AbiItem;
  minterAbi : list AbiItem;
  factoryAbi : list AbiItem;
  diamondMarketplaceAbi : list AbiItem;
  diamondFactoryAbi : list AbiItem;
  classicDeprecatedEvents : list AbiItem;
  diamondDeprecatedEvents : list AbiItem;
  resaleMarketplaceEvents : list AbiItem;
  creditHandlerEvents : list AbiItem;
}.

(** ** eventCatcherMapping.js *)

(** What the [operation] of an entry can hold: one of the event handler
    functions imported from [./eventCatcherUtils], or the member of
    [Object.prototype] that a property access on the handler table finds
    for a name the table does not bind. *)
Inductive Handler :=
| insertContract | insertCollection | insertTokenClassic | insertTokenDiamond
| insertOfferPool | insertOffer | insertDiamondOffer | insertLock
| insertDiamondRange | metadataForToken | metadataForProduct
| updateOfferClassic | updateDiamondRange | metadataForContract
| handleResaleOffer | updateResaleOffer | registerCustomSplits
| depositCredits | withdrawCredits | updateMintingOffer
| ObjectPrototype (member : string).

#[global] Instance Handler_eq_dec : EqDecision Handler.
Proof. solve_decision. Defined.

(** Smart contract events are mapped to an insertion logic. *)
Definition insertionMapping : gmap string Handler :=
  list_to_map [
    (* Diamond Factory *)
    ("DeployedContract", insertContract);
    ("CreatedCollection", insertCollection);
    ("CreatedRange", insertDiamondRange);
    ("UpdatedRange", updateDiamondRange);
    ("UpdatedBaseURI", metadataForContract);
    ("UpdatedProductURI", metadataForProduct);
    ("UpdatedTokenURI", metadataForToken);
    (* Diamond Marketplace *)
    ("AddedMintingOffer", insertDiamondOffer);
    ("TokenMinted", insertTokenClassic);
    ("MintedToken", insertTokenDiamond);
    ("UpdatedMintingOffer", updateMintingOffer);
    (* Classic Factory *)
    ("NewContractDeployed", insertContract);
    (* Classic ERC721 *)
    ("BaseURIChanged", metadataForContract);
    ("ProductURIChanged", metadataForProduct);
    ("TokenURIChanged", metadataForToken);
    ("ProductCreated", insertCollection);
    (* Classic Marketplace *)
    ("AddedOffer", insertOfferPool);
    ("AppendedRange", insertOffer);
    ("RangeLocked", insertLock);
    ("UpdatedOffer", updateOfferClassic);
    (* Resale Marketplace *)
    ("OfferStatusChange", handleResaleOffer);
    ("UpdatedOfferPrice", updateResaleOffer);
    ("CustomRoyaltiesSet", registerCustomSplits);
    (* Credit Handler *)
    ("ReceivedTokens", depositCredits);
    ("WithdrewCredit", withdrawCredits)
  ].

(** [insertionMapping[name]]: the table is an object literal, so the
    access also finds the members it inherits. *)
Definition insertionMapping_at (name : string) : option Handler :=
  get ObjectPrototype insertionMapping name.

(** A value of the registry. *)
Record Entry := {
  signature : string;
  abi : list AbiItem;
  diamondEvent : bool;
  operation : option Handler;
}.

#[global] Instance Entry_eq_dec : EqDecision Entry.
Proof. solve_decision. Defined.

Section EventCatcherMapping.
Context `{utils.Ethers}.

(** [abi.filter((item) => item.name === eventSignature.split('(')[0])] *)
Definition matching_items (abi : list AbiItem) (eventSignature : string)
  : list AbiItem :=
  filter (λ item, item_name item = Some (split_head "(" eventSignature)) abi.

(** The body of the [forEach] callback of [getContractEvents]. *)
Definition register_event (abi : list AbiItem) (isDiamond : bool)
    (mapping : gmap string Entry) (eventSignature : string)
  : Eff (gmap string Entry) :=
  match matching_items abi eventSignature with
  | [] =>
      exec console_error ("Couldn't find ABI for signature " +:+ eventSignature)
      then ret mapping
  | singleAbi :: _ =>
      ret (<[ utils.id eventSignature :=
               {| signature := eventSignature;
                  abi := [singleAbi];
                  diamondEvent := isDiamond;
                  operation := item_name singleAbi ≫= insertionMapping_at |}
           ]> mapping)
  end.

(** [isDiamond] defaults to [false]; the calls below pass it in full. *)
Definition getContractEvents (abi : list AbiItem) (isDiamond : bool)
  : Eff (gmap string Entry) :=
  match utils.Interface abi with
  | None => throw
  | Some eventSignatures => forEach (register_event abi isDiamond) eventSignatures ∅
  end.

(** The object literal [{...getContractEvents(erc721Abi), ...}]: the nine
    calls run in the order they are written and each result is copied
    over what the literal holds so far. *)
Definition masterMapping (c : Contracts) : Eff (gmap string Entry) :=
  let* m1 := getContractEvents (erc721Abi c) false in
  let* m2 := getContractEvents (minterAbi c) false in
  let* m3 := getContractEvents (factoryAbi c) false in
  let* m4 := getContractEvents (diamondFactoryAbi c) true in
  let* m5 := getContractEvents (diamondMarketplaceAbi c) true in
  let* m6 := getContractEvents (classicDeprecatedEvents c) false in
  let* m7 := getContractEvents (diamondDeprecatedEvents c) true in
  let* m8 := getContractEvents (resaleMarketplaceEvents c) false in
  let* m9 := getContractEvents (creditHandlerEvents c) true in
  ret (spread (spread (spread (spread (spread (spread (spread (spread
         (spread ∅ m1) m2) m3) m4) m5) m6) m7) m8) m9).

(** *** Vocabulary for the statements *)

(** The ABIs in the order [masterMapping] reads them, each with the flag
    it is read with. *)
Definition corpus (c : Contracts) : list (list AbiItem * bool) :=
  [ (erc721Abi c, false); (minterAbi c, false); (factoryAbi c, false);
    (diamondFactoryAbi c, true); (diamondMarketplaceAbi c, true);
    (classicDeprecatedEvents c, false); (diamondDeprecatedEvents c, true);
    (resaleMarketplaceEvents c, false); (creditHandlerEvents c, true) ].

(** Every ABI of the corpus is one the library accepts. *)
Definition well_formed (c : Contracts) : Prop :=
  Forall (λ x, is_Some (utils.Interface x.1)) (corpus c).

(** The signatures of the events of an ABI (none when the library refuses
    it). *)
Definition event_signatures (abi : list AbiItem) : list string :=
  default [] (utils.Interface abi).

Definition corpus_signatures (c : Contracts) : list string :=
  corpus c ≫= λ x, event_signatures x.1.

(** The hasher gives two different signatures of the corpus two different
    identifiers. *)
Definition collision_free (c : Contracts) : Prop :=
  Forall (λ s1, Forall (λ s2, utils.id s1 = utils.id s2 → s1 = s2)
                       (corpus_signatures c))
         (corpus_signatures c).

(** The ABI has an event of this name: the signature is one of its event
    signatures and an entry of the ABI carries the name. *)
Definition declares (abi : list AbiItem) (name sig : string) : Prop :=
  sig ∈ event_signatures abi
  ∧ split_head "(" sig = name
  ∧ matching_items abi sig ≠ [].

(** The entry that the callback of [getContractEvents] writes for a
    signature, when an entry of the ABI carries its name. *)
Definition entry_for (abi : list AbiItem) (isDiamond : bool) (sig : string)
  : option Entry :=
  singleAbi ← head (matching_items abi sig);
  Some {| signature := sig;
          abi := [singleAbi];
          diamondEvent := isDiamond;
          operation := item_name singleAbi ≫= insertionMapping_at |}.

(** One turn of the loop of [getContractEvents], without the console. *)
Definition register_step (abi : list AbiItem) (isDiamond : bool)
    (mapping : gmap string Entry) (sig : string) : gmap string Entry :=
  match entry_for abi isDiamond sig with
  | Some e => <[utils.id sig := e]> mapping
  | None => mapping
  end.

(** The line written on the console for a signature without entry, and
    the lines written while one list of signatures is read. *)
Definition missing_line (sig : string) : string :=
  "Couldn't find ABI for signature " +:+ sig.

Definition missing_lines (abi : list AbiItem) (sigs : list string)
  : list string :=
  missing_line <$> filter (λ sig, matching_items abi sig = []) sigs.

(** The mapping that [getContractEvents] returns for an ABI the library
    accepts, and the registry the mappings of a list of ABIs merge into. *)
Definition registered (abi : list AbiItem) (isDiamond : bool)
  : gmap string Entry :=
  foldl (register_step abi isDiamond) ∅ (event_signatures abi).

Definition merged (l : list (list AbiItem * bool)) : gmap string Entry :=
  foldl (λ acc x, spread acc (registered x.1 x.2)) ∅ l.

End EventCatcherMapping.

(** ** A reference implementation of the [ethers] interface

    Version 5 of the library, for the closed examples to run on; the
    theorems hold for every implementation of [utils.Ethers]. Keccak-256
    is in full. Of the constructor of [Interface], what the example ABIs
    exercise: JSON entries with the three properties [AbiItem] records
    (the others, such as [stateMutability] and [outputs], are as a
    compiler emits them), whose inputs have no [components] and whose
    array lengths are written without leading zero; and human-readable
    lines of the form [event name(type1,...)] without parameter names. *)

Module EthersV5.

Local Open Scope N_scope.

(** *** Keccak-256 (rate 1088, capacity 512, padding byte 0x01) *)

Definition mask64 : N := 0xFFFFFFFFFFFFFFFF.

(** Rotation of a 64-bit lane to the left. *)
Definition rol64 (a n : N) : N :=
  N.lor (N.land (N.shiftl a n) mask64) (N.shiftr a (64 - n)).

(** The 25 lanes of the state, lane [(x, y)] at position [x + 5 * y]. *)
Definition lane (st : list N) (x y : nat) : N := nth (x + 5 * y)%nat st 0.

Definition coords : list (nat * nat) :=
  flat_map (λ y, map (λ x, (x, y)) (seq 0 5)) (seq 0 5).

Definition rotation_offsets : list N :=
  [ 0;  1; 62; 28; 27;
   36; 44;  6; 55; 20;
    3; 10; 43; 25; 39;
   41; 45; 15; 21;  8;
   18;  2; 61; 56; 14].

Definition round_constants : list N :=
  [0x0000000000000001; 0x0000000000008082; 0x800000000000808A;
   0x8000000080008000; 0x000000000000808B; 0x0000000080000001;
   0x8000000080008081; 0x8000000000008009; 0x000000000000008A;
   0x0000000000000088; 0x0000000080008009; 0x000000008000000A;
   0x000000008000808B; 0x800000000000008B; 0x8000000000008089;
   0x8000000000008003; 0x8000000000008002; 0x8000000000000080;
   0x000000000000800A; 0x800000008000000A; 0x8000000080008081;
   0x8000000000008080; 0x0000000080000001; 0x8000000080008008].

Definition theta (st : list N) : list N :=
  let C := map (λ x, fold_left N.lxor (map (lane st x) (seq 0 5)) 0) (seq 0 5) in
  let D := map (λ x, N.lxor (nth ((x + 4) mod 5)%nat C 0)
                            (rol64 (nth ((x + 1) mod 5)%nat C 0) 1))
               (seq 0 5) in
  map (λ '(x, y), N.lxor (lane st x y) (nth x D 0)) coords.

(** Lane [(x, y)] of the result is lane [((x + 3 y) mod 5, x)] rotated. *)
Definition rho_pi (st : list N) : list N :=
  map (λ '(x, y),
         let sx := ((x + 3 * y) mod 5)%nat in
         rol64 (lane st sx x) (nth (sx + 5 * x)%nat rotation_offsets 0))
      coords.

Definition chi (st : list N) : list N :=
  map (λ '(x, y),
         N.lxor (lane st x y)
           (N.land (N.lxor (lane st ((x + 1) mod 5)%nat y) mask64)
                   (lane st ((x + 2) mod 5)%nat y)))
      coords.

Definition iota (rc : N) (st : list N) : list N :=
  match st with
  | [] => []
  | a :: st' => N.lxor a rc :: st'
  end.

Definition keccak_f (st : list N) : list N :=
  fold_left (λ st rc, iota rc (chi (rho_pi (theta st)))) round_constants st.

Definition rate : nat := 136.

Definition pad (msg : list N) : list N :=
  let q := (rate - length msg mod rate)%nat in
  match q with
  | 1%nat => msg ++ [0x81]
  | _ => msg ++ [0x01] ++ repeat 0 (q - 2) ++ [0x80]
  end.

(** [n] little-endian lanes read from a list of bytes. *)
Fixpoint lanes_of_bytes (n : nat) (bs : list N) : list N :=
  match n with
  | O => []
  | S n' =>
      fold_right (λ b acc, b + 256 * acc) 0 (firstn 8 bs)
      :: lanes_of_bytes n' (skipn 8 bs)
  end.

Fixpoint absorb (fuel : nat) (st : list N) (bs : list N) : list N :=
  match fuel, bs with
  | O, _ | _, [] => st
  | S fuel', _ =>
      let block := lanes_of_bytes 25 (firstn rate bs) in
      absorb fuel' (keccak_f (map (λ '(a, b), N.lxor a b) (combine st block)))
             (skipn rate bs)
  end.

Fixpoint bytes_of_lane (n : nat) (a : N) : list N :=
  match n with
  | O => []
  | S n' => a mod 256 :: bytes_of_lane n' (a / 256)
  end.

Definition keccak256 (msg : list N) : list N :=
  let bs := pad msg in
  let st := absorb (length bs) (repeat 0 25) bs in
  flat_map (bytes_of_lane 8) (firstn 4 st).

Definition hex_digit (d : N) : ascii :=
  nth (N.to_nat d) (list_ascii_of_string "0123456789abcdef") "0"%char.

Definition hexlify (bs : list N) : string :=
  "0x" +:+ string_of_list_ascii
             (flat_map (λ b, [hex_digit (b / 16); hex_digit (b mod 16)]) bs).

(** [utils.id(text) = keccak256(toUtf8Bytes(text))]; a [string] holds the
    bytes of the UTF-8 encoding. *)
Definition id (text : string) : string :=
  hexlify (keccak256 (map N_of_ascii (list_ascii_of_string text))).

Local Close Scope N_scope.

(** *** Event signatures *)

Definition is_letter (ch : ascii) : bool :=
  let n := nat_of_ascii ch in
  ((65 <=? n) && (n <=? 90) || (97 <=? n) && (n <=? 122)
   || (n =? 36) || (n =? 95))%nat.

Definition is_digit (ch : ascii) : bool :=
  let n := nat_of_ascii ch in ((48 <=? n) && (n <=? 57))%nat.

(** The library's [regexIdentifier], [/^[a-zA-Z$_][a-zA-Z0-9$_]*$/]. *)
Definition is_identifier (s : string) : bool :=
  match s with
  | EmptyString => false
  | String ch s' =>
      is_letter ch
      && forallb (λ ch, is_letter ch || is_digit ch) (list_ascii_of_string s')
  end.

Fixpoint strip_prefix (p s : string) : option string :=
  match p, s with
  | EmptyString, _ => Some s
  | String a p', String b s' => if Ascii.eqb a b then strip_prefix p' s' else None
  | String _ _, EmptyString => None
  end.

(** What follows [uint] or [int] in a type written without size: the end
    of the text, or a character that is not a digit from 1 to 9. *)
Definition unsized (rest : string) : bool :=
  match rest with
  | EmptyString => true
  | String ch _ =>
      let n := nat_of_ascii ch in negb ((49 <=? n) && (n <=? 57))%nat
  end.

(** The library's [verifyType]: [uint] and [int] are written in full,
    [/^uint($|[^1-9])/] and [/^int($|[^1-9])/]. *)
Definition verifyType (type : string) : string :=
  match strip_prefix "uint" type with
  | Some rest => if unsized rest then "uint256" +:+ rest else type
  | None =>
      match strip_prefix "int" type with
      | Some rest => if unsized rest then "int256" +:+ rest else type
      | None => type
      end
  end.

(** [fragment.format()] of an event: [name(type1,type2,...)]. *)
Definition format (name : string) (inputs : list AbiInput) : string :=
  name +:+ "("
  +:+ String.concat "," (map (λ i, verifyType (input_type i)) inputs)
  +:+ ")".

(** A text [name(type1,...)] with an identifier for a name, one pair of
    parentheses and no blank. *)
Definition plain_signature (sig : string) : bool :=
  let head := split_head "(" sig in
  is_identifier head
  && match strip_prefix (head +:+ "(") sig with
     | Some rest =>
         match reverse (list_ascii_of_string rest) with
         | ch :: args =>
             Ascii.eqb ch ")"
             && forallb (λ ch, negb (Ascii.eqb ch "(" || Ascii.eqb ch ")"
                                     || Ascii.eqb ch " ")) args
         | [] => false
         end
     | None => false
     end.

Inductive Fragment :=
| EventFragment (sig : string)
| OtherFragment.

(** [Fragment.from(item)]: [None] when the library throws. An event, a
    function and an error need an identifier for a name; a constructor
    has none; a fallback and a receive entry are dropped; an entry of any
    other type is refused. Of the human-readable lines only
    [event name(type1,...)] is covered. *)
Definition Fragment_from (item : AbiItem) : option Fragment :=
  match item with
  | JsonFragment type name inputs =>
      if String.eqb type "event" then
        match name with
        | Some name =>
            if is_identifier name then Some (EventFragment (format name inputs))
            else None
        | None => None
        end
      else if String.eqb type "function" || String.eqb type "error" then
        match name with
        | Some name => if is_identifier name then Some OtherFragment else None
        | None => None
        end
      else if String.eqb type "constructor" || String.eqb type "fallback"
              || String.eqb type "receive" then Some OtherFragment
      else None
  | HumanReadable text =>
      match strip_prefix "event " text with
      | Some sig => if plain_signature sig then Some (EventFragment sig) else None
      | None => None
      end
  end.

(** The constructor keeps the first fragment of each signature: the keys
    of [events] are the signatures in the order they first occur. *)
Definition add_key (keys : list string) (k : string) : list string :=
  if decide (k ∈ keys) then keys else keys ++ [k].

Fixpoint Interface_keys (keys : list string) (abi : list AbiItem)
  : option (list string) :=
  match abi with
  | [] => Some keys
  | item :: abi' =>
      match Fragment_from item with
      | None => None
      | Some OtherFragment => Interface_keys keys abi'
      | Some (EventFragment sig) => Interface_keys (add_key keys sig) abi'
      end
  end.

Definition Interface (abi : list AbiItem) : option (list string) :=
  Interface_keys [] abi.

Definition ethers : utils.Ethers :=
  {| utils.id := id; utils.Interface := Interface |}.

End EthersV5.

(** ** The contract RAIR_ERC721 *)

Module RAIR_ERC721.

Local Open Scope Z_scope.

(** [uint] is [uint256]; [address] is a 160-bit number, [address(0)] is 0. *)
Definition uint : Type := Z.
Definition address : Type := Z.
Bind Scope Z_scope with uint address.
Definition max_uint : Z := 2 ^ 256 - 1.

(** How a call ends: [Revert] is a failed [require] or role check, [Panic]
    a failed check of the compiler (0x11 arithmetic overflow, 0x32 array
    index out of bounds). Both undo every change of the call. *)
Inductive Result (A : Type) : Type :=
| Success (a : A)
| Revert (reason : string)
| Panic (code : Z).
Arguments Success {A} a.
Arguments Revert {A} reason.
Arguments Panic {A} code.

(** Checked addition of Solidity 0.8. *)
Definition checked_add (a b : uint) : Result uint :=
  if a + b <=? max_uint then Success (a + b) else Panic 0x11.

Record collection := {
  startingToken : uint;
  endingToken : uint;
  mintableTokens : uint;
  enableResaleAt : uint;
  name : string;
}.

Inductive Role := CREATOR | MINTER.

(** The call being executed: [msg.sender] and [msg.value]. *)
Record Message := {
  msg_sender : address;
  msg_value : uint;
}.

#[global] Instance Role_eq_dec : EqDecision Role.
Proof. solve_decision. Defined.

Inductive Event :=
| CollectionCreated (id : uint) (name : string) (length : uint)
| TransfersEnabled (id : uint) (name : string)
| CollectionCompleted (id : uint) (name : string).

(** The storage of the contract. [Base] is the storage of the contracts
    it inherits from (ERC721Enumerable: owners, balances, enumerations). *)
Record State {Base : Type} := {
  _collections : list collection;
  tokenToCollection : gmap Z uint;
  (** AccessControl's [hasRole(role, account)] *)
  hasRole : Role → address → bool;
  base : Base;
}.
Arguments State Base : clear implicits.

(** [tokenToCollection[token]]: a mapping reads 0 where nothing was
    written. *)
Definition tokenToCollection_at {Base} (s : State Base) (token : uint) : uint :=
  default 0 (tokenToCollection s !! token).

(** [_collections[index]]: reading past the end is a panic. *)
Definition collection_at {Base} (s : State Base) (index : uint)
  : Result collection :=
  if index <? 0 then Panic 0x32 else
  match _collections s !! Z.to_nat index with
  | Some c => Success c
  | None => Panic 0x32
  end.

(** Every collection starts where the one before it ends, the first one
    at [start]. *)
Fixpoint contiguous (start : uint) (l : list collection) : Prop :=
  match l with
  | [] => True
  | c :: l' => startingToken c = start ∧ contiguous (endingToken c) l'
  end.

Section Contract.
Context {Base : Type}.

(** [super._beforeTokenTransfer(_from, _to, _tokenId)], the hook of
    ERC721Enumerable, on the inherited storage. *)
Variable super_beforeTokenTransfer :
  Base → address → address → uint → Result Base.

Definition createCollection (msg : Message)
    (_collectionName : string) (_copies _resaleAt : uint) (s : State Base)
  : Result (State Base * list Event) :=
  (* the function is not payable *)
  if negb (msg_value msg =? 0) then Revert ""
  (* onlyRole(CREATOR) *)
  else if negb (hasRole s CREATOR (msg_sender msg)) then
    Revert "AccessControl: account is missing role"
  else if negb (_resaleAt <=? _copies) then
    Revert "ERC721: Resale start should be less than the total amount of copies"
  else
    let lastToken :=
      match last (_collections s) with
      | None => 0
      | Some c => endingToken c
      end in
    match checked_add lastToken _copies with
    | Success ending =>
        let newCollection :=
          {| startingToken := lastToken;
             endingToken := ending;
             name := _collectionName;
             mintableTokens := _copies;
             enableResaleAt := _resaleAt |} in
        let index := Z.of_nat (length (_collections s)) in
        Success
          ({| _collections := _collections s ++ [newCollection];
              tokenToCollection := tokenToCollection s;
              hasRole := hasRole s;
              base := base s |},
           CollectionCreated index _collectionName _copies
           :: if _resaleAt =? 0 then [TransfersEnabled index _collectionName]
              else [])
    | Revert reason => Revert reason
    | Panic code => Panic code
    end.

(** The inherited hook run on the storage of the contract. *)
Definition super__beforeTokenTransfer (_from _to : address) (_tokenId : uint)
    (s : State Base) : Result (State Base) :=
  match super_beforeTokenTransfer (base s) _from _to _tokenId with
  | Success b =>
      Success {| _collections := _collections s;
                 tokenToCollection := tokenToCollection s;
                 hasRole := hasRole s;
                 base := b |}
  | Revert reason => Revert reason
  | Panic code => Panic code
  end.

Definition _beforeTokenTransfer (_from _to : address) (_tokenId : uint)
    (s : State Base) : Result (State Base) :=
  if negb (_from =? 0) && negb (_to =? 0) then
    match collection_at s (tokenToCollection_at s _tokenId) with
    | Success c =>
        if enableResaleAt c =? 0 then
          super__beforeTokenTransfer _from _to _tokenId s
        else
          Revert "RAIR ERC721: Transfers for this collection haven't been enabled"
    | Revert reason => Revert reason
    | Panic code => Panic code
    end
  else super__beforeTokenTransfer _from _to _tokenId s.

End Contract.

(** *** The views, the mint and the royalty *)

Definition Result_bind {A B} (r : Result A) (k : A → Result B) : Result B :=
  match r with
  | Success a => k a
  | Revert reason => Revert reason
  | Panic code => Panic code
  end.

Local Notation "'let!' x ':=' r 'in' k" := (Result_bind r (λ x, k))
  (at level 10, x name, r at level 100, k at level 200, only parsing).

(** Checked subtraction and multiplication of Solidity 0.8. *)
Definition checked_sub (a b : uint) : Result uint :=
  if b <=? a then Success (a - b) else Panic 0x11.

Definition checked_mul (a b : uint) : Result uint :=
  if a * b <=? max_uint then Success (a * b) else Panic 0x11.

(** [abi.encodePacked(v)] for a [uint256]: its 32 bytes, the most
    significant first. *)
Fixpoint big_endian (n : nat) (v : Z) : list Z :=
  match n with
  | O => []
  | S n' => big_endian n' (v / 256) ++ [v mod 256]
  end.

Definition encodePacked (v : uint) : list Z := big_endian 32 v.

(** The number that a list of bytes spells, the most significant first. *)
Definition from_big_endian (bytes : list Z) : Z :=
  foldl (λ acc b, 256 * acc + b) 0 bytes.

Section Views.
Context {Base : Type}.

(** The storage the constructor leaves: no collection, no token, and the
    roles CREATOR and MINTER for [_creatorAddress] alone. [_factory] and
    [_royaltyFee] are written here and nowhere else; [royaltyInfo] below
    takes the fee as an argument. *)
Definition constructor (_creatorAddress : address) (inherited : Base)
  : State Base :=
  {| _collections := [];
     tokenToCollection := ∅;
     hasRole := λ role account, bool_decide (account = _creatorAddress);
     base := inherited |}.

Definition getCollectionCount (s : State Base) : uint :=
  Z.of_nat (length (_collections s)).

Definition getCollection (index : uint) (s : State Base)
  : Result (uint * uint * uint * string) :=
  let! selectedCollection := collection_at s index in
  Success (startingToken selectedCollection, endingToken selectedCollection,
           mintableTokens selectedCollection, name selectedCollection).

Definition tokenToCollectionIndex (token : uint) (s : State Base)
  : Result uint :=
  let! c := collection_at s (tokenToCollection_at s token) in
  checked_sub token (startingToken c).

(** [balanceOf] and [tokenOfOwnerByIndex] of ERC721Enumerable, on the
    inherited storage. *)
Variable balanceOf : Base → address → Result uint.
Variable tokenOfOwnerByIndex : Base → address → uint → Result uint.



(** [getRoleMember] of AccessControlEnumerable, on the inherited storage. *)
Variable getRoleMember : Base → Role → uint → Result address.

Definition royaltyInfo (_royaltyFee : uint) (_tokenId _value : uint)
    (_data : list Z) (s : State Base) : Result (address * uint * list Z) :=
  let! receiver := getRoleMember (base s) CREATOR 0 in
  let! product := checked_mul _value _royaltyFee in
  Success (receiver, product / 100000, encodePacked _tokenId).

End Views.

Section Minting.
Context {Base : Type}.

(** [_safeMint(to, tokenId)] of ERC721: it runs the transfer hook, writes
    the owner in the inherited storage and calls the receiver, which may
    call the contract back; it is given the whole storage for that. The
    events listed are the ones the contract emits itself; the Transfer
    event belongs to the inherited contract. *)
Variable _safeMint : State Base → address → uint → Result (State Base).

Definition set_tokenToCollection (s : State Base) (token index : uint)
  : State Base :=
  {| _collections := _collections s;
     tokenToCollection := <[token := index]> (tokenToCollection s);
     hasRole := hasRole s;
     base := base s |}.

Definition set_collection (s : State Base) (index : uint) (c : collection)
  : State Base :=
  {| _collections := <[Z.to_nat index := c]> (_collections s);
     tokenToCollection := tokenToCollection s;
     hasRole := hasRole s;
     base := base s |}.

(** [currentCollection] is a pointer into the storage: what is read
    through it after [_safeMint] is what the storage holds then. The array
    is never shortened, so the element is still there. *)
Definition mint (msg : Message) (to : address) (collectionID : uint)
    (s : State Base) : Result (State Base * list Event) :=
  (* the function is not payable *)
  if negb (msg_value msg =? 0) then Revert ""
  (* onlyRole(MINTER) *)
  else if negb (hasRole s MINTER (msg_sender msg)) then
    Revert "AccessControl: account is missing role"
  else
    let! currentCollection := collection_at s collectionID in
    if negb (0 <? mintableTokens currentCollection) then
      Revert "RAIR ERC721: Cannot mint tokens from this collection"
    else
      let! token := checked_sub (endingToken currentCollection)
                                (mintableTokens currentCollection) in
      let! s := _safeMint s to token in
      let! currentCollection := collection_at s collectionID in
      let! token := checked_sub (endingToken currentCollection)
                                (mintableTokens currentCollection) in
      let s := set_tokenToCollection s token collectionID in
      let! mintable := checked_sub (mintableTokens currentCollection) 1 in
      let resale :=
        if 0 <? enableResaleAt currentCollection
        then enableResaleAt currentCollection - 1
        else enableResaleAt currentCollection in
      let enabled :=
        if (0 <? enableResaleAt currentCollection) && (resale =? 0)
        then [TransfersEnabled collectionID (name currentCollection)]
        else [] in
      let completed :=
        if mintable =? 0
        then [CollectionCompleted collectionID (name currentCollection)]
        else [] in
      Success
        (set_collection s collectionID
           {| startingToken := startingToken currentCollection;
              endingToken := endingToken currentCollection;
              mintableTokens := mintable;
              enableResaleAt := resale;
              name := name currentCollection |},
         enabled ++ completed).

(** *** Vocabulary for the statements *)

(** What one turn of [mint] writes in the collection it mints from. *)
Definition after_mint (c : collection) : collection :=
  {| startingToken := startingToken c;
     endingToken := endingToken c;
     mintableTokens := mintableTokens c - 1;
     enableResaleAt :=
       if 0 <? enableResaleAt c then enableResaleAt c - 1 else enableResaleAt c;
     name := name c |}.

(** The receiver of a mint does not get the contract to create a
    collection or to mint during the call: [_safeMint] leaves the
    collections and the record of the tokens as they are. *)
Definition no_reentry : Prop :=
  ∀ s to token s',
    _safeMint s to token = Success s' →
    _collections s' = _collections s
    ∧ tokenToCollection s' = tokenToCollection s.

(** The figures of a collection fit together: no more tokens left to mint
    than the collection has, and no more mints before resale than tokens
    left. *)
Definition collection_ok (c : collection) : Prop :=
  0 ≤ startingToken c
  ∧ 0 ≤ enableResaleAt c
  ∧ enableResaleAt c ≤ mintableTokens c
  ∧ mintableTokens c ≤ endingToken c - startingToken c
  ∧ endingToken c ≤ max_uint.

(** Every token on record belongs to a collection that exists and lies
    among the tokens that collection has minted. *)
Definition recorded_in_range (s : State Base) : Prop :=
  ∀ token index,
    tokenToCollection s !! token = Some index →
    ∃ c, collection_at s index = Success c
         ∧ startingToken c ≤ token < endingToken c - mintableTokens c.

Definition consistent (s : State Base) : Prop :=
  contiguous 0 (_collections s)
  ∧ Forall collection_ok (_collections s)
  ∧ recorded_in_range s.

(** The states the contract goes through: deployed, then calls of
    [createCollection] and [mint] that succeed, and calls of the inherited
    functions, which leave the collections and the record of the tokens
    alone. *)
Inductive reachable : State Base → Prop :=
| reachable_constructor _creatorAddress inherited :
    reachable (constructor _creatorAddress inherited)
| reachable_createCollection s msg cname copies resaleAt s' events :
    reachable s →
    0 ≤ resaleAt →
    createCollection msg cname copies resaleAt s = Success (s', events) →
    reachable s'
| reachable_mint s msg to collectionID s' events :
    reachable s →
    mint msg to collectionID s = Success (s', events) →
    reachable s'
| reachable_inherited s s' :
    reachable s →
    _collections s' = _collections s →
    tokenToCollection s' = tokenToCollection s →
    reachable s'.

(** [n] mints out of one collection, among other calls that succeed. *)
Inductive mints_of (collectionID : uint) : nat → State Base → State Base → Prop :=
| mints_of_refl s : mints_of collectionID 0 s s
| mints_of_mint n s msg to s1 events s2 :
    mint msg to collectionID s = Success (s1, events) →
    mints_of collectionID n s1 s2 →
    mints_of collectionID (S n) s s2
| mints_of_other n s msg to other s1 events s2 :
    other ≠ collectionID →
    mint msg to other s = Success (s1, events) →
    mints_of collectionID n s1 s2 →
    mints_of collectionID n s s2
| mints_of_createCollection n s msg cname copies resaleAt s1 events s2 :
    0 ≤ resaleAt →
    createCollection msg cname copies resaleAt s = Success (s1, events) →
    mints_of collectionID n s1 s2 →
    mints_of collectionID n s s2
| mints_of_inherited n s s1 s2 :
    _collections s1 = _collections s →
    tokenToCollection s1 = tokenToCollection s →
    mints_of collectionID n s1 s2 →
    mints_of collectionID n s s2.

End Minting.

End RAIR_ERC721.

(** ** The dispatcher and the idempotent apply layer *)

Module Dispatcher.

(** Modelled from the spec: the LogRecord of section 3, a log as the
    chain-sync driver delivers it. *)
Record LogRecord := {
  identifier : string;
  rawParameters : string;
  contractAddress : string;
  blockNumber : N;
  logIndex : N;
  transactionHash : string;
}.

(** Modelled from the spec: the key of the AppliedLog ledger of section 3,
    (transaction hash, log index). *)
Definition ledger_key (r : LogRecord) : string * N :=
  (transactionHash r, logIndex r).

(** Modelled from the spec: the conditions of the table of section 7
    that a dispatch can end in, and the successful application. *)
Inductive Outcome :=
| UnknownEvent
| Unhandled
| MalformedLog
| DuplicateApplication
| HandlerFailure
| Applied.

#[global] Instance Outcome_eq_dec : EqDecision Outcome.
Proof. solve_decision. Defined.

Section Dispatch.
Context {Store Args : Type}.

(** Modelled from the spec: the decoding of the raw parameter bytes
    against one ABI fragment (step 3 of section 4.5); [None] when the bytes
    do not decode. *)
Variable decode : list AbiItem → string → option Args.

(** Modelled from the spec: the handlers of section 4.4, from the decoded
    arguments and the log metadata to a mutation of the store; [None] when
    the handler fails. *)
Variable apply_handler : Handler → Args → LogRecord → Store → option Store.

(** Modelled from the spec: the persisted state, the mirrored store and
    the ledger of applied logs, written as one unit (section 4.6). *)
Record Persisted := {
  store : Store;
  ledger : gset (string * N);
}.

(** Modelled from the spec: the Dispatcher and the Idempotent Apply Layer
    (sections 4.5 and 4.6), whose code is not among the sources. One log
    record is looked up in the registry (a miss is UnknownEvent), dropped
    when the entry has no handler, decoded with the fragment of the entry
    (a failure is MalformedLog), skipped when the ledger holds its
    (transaction hash, log index), and otherwise handed to the handler; on
    success the ledger entry and the mutation are written together, on
    failure nothing is written. *)
Definition dispatch (registry : gmap string Entry) (r : LogRecord)
    (p : Persisted) : Outcome * Persisted :=
  match registry !! identifier r with
  | None => (UnknownEvent, p)
  | Some entry =>
      match operation entry with
      | None => (Unhandled, p)
      | Some handler =>
          match decode (abi entry) (rawParameters r) with
          | None => (MalformedLog, p)
          | Some args =>
              if decide (ledger_key r ∈ ledger p) then (DuplicateApplication, p)
              else
                match apply_handler handler args r (store p) with
                | None => (HandlerFailure, p)
                | Some store' =>
                    (Applied,
                     {| store := store';
                        ledger := {[ledger_key r]} ∪ ledger p |})
                end
          end
      end
  end.

(** Modelled from the spec: the external driver delivering a sequence of
    records, one after the other. *)
Definition dispatch_all (registry : gmap string Entry) (rs : list LogRecord)
    (p : Persisted) : Persisted :=
  foldl (λ p r, (dispatch registry r p).2) p rs.

End Dispatch.

End Dispatcher.

(** ** Example ABIs *)

Module Examples.

Definition input (type name : string) (indexed : bool) : AbiInput :=
  {| input_type := type; input_name := name; indexed := indexed |}.

Definition constructor : AbiItem :=
  JsonFragment "constructor" None
    [input "string" "_contractName" false;
     input "address" "_creatorAddress" false].

Definition Transfer : AbiItem :=
  JsonFragment "event" (Some "Transfer")
    [input "address" "from" true; input "address" "to" true;
     input "uint256" "tokenId" true].

Definition ProductCreated : AbiItem :=
  JsonFragment "event" (Some "ProductCreated")
    [input "uint256" "id" true; input "string" "name" false;
     input "uint256" "startingToken" false; input "uint256" "length" false].

Definition CreatedCollection : AbiItem :=
  JsonFragment "event" (Some "CreatedCollection")
    [input "uint256" "collectionIndex" true;
     input "string" "collectionName" false;
     input "uint256" "startingToken" false;
     input "uint256" "collectionLength" false].

Definition NewContractDeployed : AbiItem :=
  JsonFragment "event" (Some "NewContractDeployed")
    [input "address" "owner" false; input "uint256" "id" false;
     input "address" "token" false; input "string" "contractName" false].

Definition DeployedContract : AbiItem :=
  JsonFragment "event" (Some "DeployedContract")
    [input "address" "deployerAddress" false;
     input "uint256" "deploymentIndex" false;
     input "address" "deploymentAddress" false;
     input "string" "deploymentName" false].

(** An event declared twice under one name, with different parameters. *)
Definition TokenMinted : AbiItem :=
  JsonFragment "event" (Some "TokenMinted")
    [input "address" "ownerAddress" false; input "address" "contractAddress" false;
     input "uint256" "catalogIndex" false; input "uint256" "tokenIndex" false].

Definition TokenMinted_short : AbiItem :=
  JsonFragment "event" (Some "TokenMinted")
    [input "address" "ownerAddress" false; input "uint256" "tokenIndex" false].

(** A corpus in which the classic token and the diamond factory both
    declare [Transfer(address,address,uint256)]. *)
Definition contracts : Contracts :=
  {| erc721Abi := [constructor; ProductCreated; Transfer];
     minterAbi := [TokenMinted; TokenMinted_short];
     factoryAbi := [NewContractDeployed];
     diamondMarketplaceAbi := [];
     diamondFactoryAbi := [DeployedContract; CreatedCollection; Transfer];
     classicDeprecatedEvents := [];
     diamondDeprecatedEvents := [];
     resaleMarketplaceEvents := [];
     creditHandlerEvents := [] |}.

(** The same corpus with the credit handler's events written in the
    human-readable format: its items are strings, which have no [name]. *)
Definition readable_contracts : Contracts :=
  {| erc721Abi := erc721Abi contracts;
     minterAbi := minterAbi contracts;
     factoryAbi := factoryAbi contracts;
     diamondMarketplaceAbi := diamondMarketplaceAbi contracts;
     diamondFactoryAbi := diamondFactoryAbi contracts;
     classicDeprecatedEvents := classicDeprecatedEvents contracts;
     diamondDeprecatedEvents := diamondDeprecatedEvents contracts;
     resaleMarketplaceEvents := resaleMarketplaceEvents contracts;
     creditHandlerEvents :=
       [HumanReadable "event ReceivedTokens(address,address,uint256)"] |}.

(** Signatures and identifiers of the examples. *)
Definition Transfer_signature : string := "Transfer(address,address,uint256)".
Definition Transfer_id : string :=
  "0xddf252ad1be2c89b69c2b068fc378daa952ba7f163c4a11628f55a4df523b3ef".
Definition TokenMinted_short_id : string :=
  "0xb9144c96c86541f6fa89c9f2f02495cccf4b08cd6643e26d34ee00aa586558a8".
Definition ReceivedTokens_signature : string :=
  "ReceivedTokens(address,address,uint256)".

(** The entries written for [Transfer] from the classic token ABI and from
    the diamond factory ABI. *)
Definition Transfer_classic : Entry :=
  {| signature := Transfer_signature; abi := [Transfer];
     diamondEvent := false; operation := None |}.

Definition Transfer_diamond : Entry :=
  {| signature := Transfer_signature; abi := [Transfer];
     diamondEvent := true; operation := None |}.

(** The entry written for the second declaration of [TokenMinted]: it
    holds the fragment of the first. *)
Definition TokenMinted_short_entry : Entry :=
  {| signature := "TokenMinted(address,uint256)"; abi := [TokenMinted];
     diamondEvent := false; operation := Some insertTokenClassic |}.

(** The example corpus with a factory ABI the library refuses: an event
    entry without name. *)
Definition refused_contracts : Contracts :=
  {| erc721Abi := erc721Abi contracts;
     minterAbi := minterAbi contracts;
     factoryAbi := [JsonFragment "event" None []];
     diamondMarketplaceAbi := diamondMarketplaceAbi contracts;
     diamondFactoryAbi := diamondFactoryAbi contracts;
     classicDeprecatedEvents := classicDeprecatedEvents contracts;
     diamondDeprecatedEvents := diamondDeprecatedEvents contracts;
     resaleMarketplaceEvents := resaleMarketplaceEvents contracts;
     creditHandlerEvents := creditHandlerEvents contracts |}.

(** The entry written for the first declaration of [TokenMinted]. *)
Definition TokenMinted_id : string :=
  "0x747bd6dbfd6ceb446b50b008eeade0e74f807993dd969546d7efd6008554b1d0".

Definition TokenMinted_entry : Entry :=
  {| signature := "TokenMinted(address,address,uint256,uint256)";
     abi := [TokenMinted];
     diamondEvent := false; operation := Some insertTokenClassic |}.

(** An event that carries the name of a member of [Object.prototype], and
    a corpus whose credit handler ABI declares it. *)
Definition toString_event : AbiItem :=
  JsonFragment "event" (Some "toString") [input "uint256" "value" false].

Definition toString_signature : string := "toString(uint256)".

Definition inherited_contracts : Contracts :=
  {| erc721Abi := [];
     minterAbi := [];
     factoryAbi := [];
     diamondMarketplaceAbi := [];
     diamondFactoryAbi := [];
     classicDeprecatedEvents := [];
     diamondDeprecatedEvents := [];
     resaleMarketplaceEvents := [];
     creditHandlerEvents := [toString_event] |}.

End Examples.

(** ** Example states of the contract *)

Module ContractExamples.
Import RAIR_ERC721.
Local Open Scope Z_scope.

Definition creator : address := 0xC0FFEE.
Definition collector : address := 0xBEEF.

(** A call from the creator, without value. *)
Definition from_creator : Message :=
  {| msg_sender := creator; msg_value := 0 |}.

(** An inherited hook that accepts every transfer. *)
Definition accept (b : unit) (_from _to : address) (_tokenId : uint)
  : Result unit :=
  Success b.

Definition first : collection :=
  {| startingToken := 0; endingToken := 10; mintableTokens := 9;
     enableResaleAt := 1; name := "First" |}.

Definition second : collection :=
  {| startingToken := 10; endingToken := 15; mintableTokens := 5;
     enableResaleAt := 0; name := "Second" |}.

(** The contract after [createCollection("First", 10, 2)] and the mint of
    token 0: transfers of the collection are still locked. *)
Definition locked : State unit :=
  {| _collections := [first];
     tokenToCollection := {[0 := 0]};
     hasRole := λ role account, bool_decide (account = creator);
     base := tt |}.

(** The same contract after [createCollection("Second", 5, 0)]. *)
Definition two_collections : State unit :=
  {| _collections := [first; second];
     tokenToCollection := tokenToCollection locked;
     hasRole := hasRole locked;
     base := tt |}.

(** The contract once the second token of the first collection is minted:
    its transfers are enabled. *)
Definition unlocked : State unit :=
  {| _collections :=
       [{| startingToken := 0; endingToken := 10; mintableTokens := 8;
           enableResaleAt := 0; name := "First" |}];
     tokenToCollection := {[0 := 0; 1 := 0]};
     hasRole := hasRole locked;
     base := tt |}.

End ContractExamples.

(** ** Example deliveries *)

Module DispatcherExamples.
Import Dispatcher.

(** A store that counts the contracts mirrored, a decoder that accepts
    every log and a handler that counts one more. *)
Definition decode_any (fragment : list AbiItem) (raw : string) : option unit :=
  Some tt.

Definition count (handler : Handler) (args : unit) (r : LogRecord) (n : nat)
  : option nat :=
  Some (S n).

(** The registry of a diamond factory with the one event
    [DeployedContract(address,uint256,address,string)]. *)
Definition DeployedContract_id : string :=
  "0xb1bf8414d7fb85ef593239c1db589dffe8753ca97f373e492a269ec8c1e97553".

Definition registry : gmap string Entry :=
  {[ DeployedContract_id :=
       {| signature := "DeployedContract(address,uint256,address,string)";
          abi := [Examples.DeployedContract];
          diamondEvent := true;
          operation := Some insertContract |} ]}.

Definition deployment : LogRecord :=
  {| identifier := DeployedContract_id;
     rawParameters := "";
     contractAddress := "0x1111";
     blockNumber := 10;
     logIndex := 0;
     transactionHash := "0xaaaa" |}.

(** Another deployment, in the next log of the same transaction. *)
Definition next_deployment : LogRecord :=
  {| identifier := DeployedContract_id;
     rawParameters := "";
     contractAddress := "0x1111";
     blockNumber := 10;
     logIndex := 1;
     transactionHash := "0xaaaa" |}.

(** The first deployment delivered again, after a reorganisation moved
    its transaction to the next block. *)
Definition redelivery : LogRecord :=
  {| identifier := DeployedContract_id;
     rawParameters := "";
     contractAddress := "0x1111";
     blockNumber := 11;
     logIndex := 0;
     transactionHash := "0xaaaa" |}.

Definition empty : Persisted :=
  {| store := 0; ledger := ∅ |}.

Definition applied : Persisted :=
  {| store := 1; ledger := {[ledger_key deployment]} ∪ ∅ |}.

End DispatcherExamples.

(** ** Example mints *)

Module MintExamples.
Import RAIR_ERC721.
Local Open Scope Z_scope.

(** The inherited storage reduced to the owners of the tokens, the last
    minted first. *)
Definition Owners : Type := list (uint * address).

(** [_safeMint] towards receivers that take the token and do not call
    back. *)
Definition safeMint (s : State Owners) (to : address) (tokenId : uint)
  : Result (State Owners) :=
  if to =? 0 then Revert "ERC721: mint to the zero address"
  else Success {| _collections := _collections s;
                  tokenToCollection := tokenToCollection s;
                  hasRole := hasRole s;
                  base := (tokenId, to) :: base s |}.




Definition getRoleMember (owners : Owners) (role : Role) (index : uint)
  : Result address :=
  if index =? 0 then Success ContractExamples.creator else Panic 0x32.

(** A call from the collector, who holds no role. *)
Definition from_collector : Message :=
  {| msg_sender := ContractExamples.collector; msg_value := 0 |}.

Definition deployed : State Owners :=
  constructor ContractExamples.creator [].

Definition first (mintable resale : uint) : collection :=
  {| startingToken := 0; endingToken := 3; mintableTokens := mintable;
     enableResaleAt := resale; name := "First" |}.

(** After [createCollection("First", 3, 2)]. *)
Definition created : State Owners :=
  {| _collections := [first 3 2];
     tokenToCollection := ∅;
     hasRole := hasRole deployed;
     base := [] |}.

(** After one, two and three calls of [mint(collector, 0)]. *)
Definition minted_once : State Owners :=
  {| _collections := [first 2 1];
     tokenToCollection := {[0 := 0]};
     hasRole := hasRole deployed;
     base := [(0, ContractExamples.collector)] |}.

Definition minted_twice : State Owners :=
  {| _collections := [first 1 0];
     tokenToCollection := {[0 := 0; 1 := 0]};
     hasRole := hasRole deployed;
     base := [(1, ContractExamples.collector); (0, ContractExamples.collector)] |}.

Definition sold_out : State Owners :=
  {| _collections := [first 0 0];
     tokenToCollection := {[0 := 0; 1 := 0; 2 := 0]};
     hasRole := hasRole deployed;
     base := [(2, ContractExamples.collector); (1, ContractExamples.collector);
              (0, ContractExamples.collector)] |}.

(** An inherited hook that accepts every transfer. *)
Definition accept (owners : Owners) (_from _to : address) (_tokenId : uint)
  : Result Owners :=
  Success owners.

(** A second collection, of the tokens 3 to 5. *)
Definition second (mintable resale : uint) : collection :=
  {| startingToken := 3; endingToken := 6; mintableTokens := mintable;
     enableResaleAt := resale; name := "Second" |}.

(** After [createCollection("First", 3, 0)], whose transfers are enabled
    from the start, and then [createCollection("Second", 3, 2)], whose
    transfers stay locked until two of its tokens are minted. *)
Definition open_created : State Owners :=
  {| _collections := [first 3 0];
     tokenToCollection := ∅;
     hasRole := hasRole deployed;
     base := [] |}.

Definition open_and_locked : State Owners :=
  {| _collections := [first 3 0; second 3 2];
     tokenToCollection := ∅;
     hasRole := hasRole deployed;
     base := [] |}.

(** A contract that, when it receives a token ([onERC721Received]), sends
    it on to the collector with [transferFrom]. *)
Definition forwarder : address := 0xF0.

(** [_safeMint] with that receiver among the others: the owner is written
    first (the hook of the mint itself, from the zero address, goes
    straight to the inherited hook, which accepts); the receiver is called
    then, and its [transferFrom] runs the transfer hook of the contract on
    the storage as it is at that moment and, when the hook passes, makes
    the collector the owner. A failure in the receiver undoes the mint. *)
Definition safeMint_forwarding (s : State Owners) (to : address)
    (tokenId : uint) : Result (State Owners) :=
  if to =? 0 then Revert "ERC721: mint to the zero address"
  else if to =? forwarder then
    match _beforeTokenTransfer accept forwarder ContractExamples.collector
            tokenId
            {| _collections := _collections s;
               tokenToCollection := tokenToCollection s;
               hasRole := hasRole s;
               base := (tokenId, forwarder) :: base s |} with
    | Success s' =>
        Success {| _collections := _collections s';
                   tokenToCollection := tokenToCollection s';
                   hasRole := hasRole s';
                   base := (tokenId, ContractExamples.collector) :: base s |}
    | Revert reason => Revert reason
    | Panic code => Panic code
    end
  else safeMint s to tokenId.

(** The storage while the receiver of [mint(forwarder, 1)] runs: token 3
    is minted, and nothing is on record for it yet. *)
Definition in_callback : State Owners :=
  {| _collections := [first 3 0; second 3 2];
     tokenToCollection := ∅;
     hasRole := hasRole deployed;
     base := [(3, forwarder)] |}.

(** The storage after [mint(forwarder, 1)]. *)
Definition forwarded : State Owners :=
  {| _collections := [first 3 0; second 2 1];
     tokenToCollection := {[3 := 1]};
     hasRole := hasRole deployed;
     base := [(3, ContractExamples.collector)] |}.

End MintExamples.

(** * Properties of the event registry *)

Section RegistryFacts.
Context `{utils.Ethers}.

Lemma register_event_eq abi d m sig con :
  register_event abi d m sig con
  = (con ++ missing_lines abi [sig], Normal (register_step abi d m sig)).
Proof.
  unfold register_event, register_step, entry_for, missing_lines.
  rewrite filter_cons, filter_nil.
  destruct (matching_items abi sig) as [|item items] eqn:Hm; simpl.
  - reflexivity.
  - unfold ret. by rewrite app_nil_r.
Qed.

Lemma forEach_register abi d sigs : ∀ m con,
  forEach (register_event abi d) sigs m con
  = (con ++ missing_lines abi sigs, Normal (foldl (register_step abi d) m sigs)).
Proof.
  induction sigs as [|sig sigs IH]; intros m con; simpl.
  - unfold ret, missing_lines. by rewrite filter_nil, app_nil_r.
  - unfold bind. rewrite register_event_eq, IH.
    unfold missing_lines. rewrite (filter_cons _ sig sigs), filter_cons, filter_nil.
    destruct (decide (matching_items abi sig = [])); simpl.
    + by rewrite <- app_assoc.
    + by rewrite app_nil_r.
Qed.

Lemma getContractEvents_eq abi d con :
  getContractEvents abi d con
  = match utils.Interface abi with
    | Some sigs =>
        (con ++ missing_lines abi sigs,
         Normal (foldl (register_step abi d) ∅ sigs))
    | None => (con, Throw)
    end.
Proof.
  unfold getContractEvents. destruct (utils.Interface abi); [|done].
  apply forEach_register.
Qed.

Lemma getContractEvents_Normal abi d sigs con :
  utils.Interface abi = Some sigs →
  getContractEvents abi d con
  = (con ++ missing_lines abi sigs, Normal (registered abi d)).
Proof.
  intros Hi. rewrite getContractEvents_eq. unfold registered, event_signatures.
  by rewrite Hi.
Qed.

Lemma getContractEvents_value abi d m :
  value_of (getContractEvents abi d) = Some m ↔
  is_Some (utils.Interface abi) ∧ m = registered abi d.
Proof.
  unfold value_of. rewrite getContractEvents_eq.
  unfold registered, event_signatures.
  destruct (utils.Interface abi) as [sigs|]; simpl.
  - split; [intros [= <-]; eauto | intros [_ ->]; done].
  - split; [done | intros [[? [=]] _]].
Qed.

(** **** Lookups in the mapping of one ABI *)

Lemma register_step_lookup abi d m sig k :
  register_step abi d m sig !! k
  = match entry_for abi d sig with
    | Some e => if decide (utils.id sig = k) then Some e else m !! k
    | None => m !! k
    end.
Proof.
  unfold register_step. destruct (entry_for abi d sig); [|done].
  apply lookup_insert.
Qed.

Lemma registered_lookup abi d sigs : ∀ m k e,
  foldl (register_step abi d) m sigs !! k = Some e →
  (m !! k = Some e
   ∧ ∀ sig, sig ∈ sigs → utils.id sig = k → entry_for abi d sig = None)
  ∨ ∃ sig, sig ∈ sigs ∧ k = utils.id sig ∧ entry_for abi d sig = Some e.
Proof.
  induction sigs as [|sig sigs IH]; intros m k e; simpl.
  - intros Hm. left. split; [done|]. intros sig Hin. by apply elem_of_nil in Hin.
  - intros Hm. apply IH in Hm as [[Hm Hnone]|(sig' & Hin & -> & He)].
    + rewrite register_step_lookup in Hm.
      destruct (entry_for abi d sig) as [e'|] eqn:He.
      * destruct (decide (utils.id sig = k)) as [<-|Hne].
        -- right. exists sig. split; [left|]. naive_solver.
        -- left. split; [done|]. intros sig' [->|Hin]%elem_of_cons; [done|eauto].
      * left. split; [done|]. intros sig' [->|Hin]%elem_of_cons; eauto.
    + right. exists sig'. split; [by right|done].
Qed.

Lemma registered_is_Some abi d sigs : ∀ m sig,
  sig ∈ sigs → is_Some (entry_for abi d sig) →
  is_Some (foldl (register_step abi d) m sigs !! utils.id sig).
Proof.
  assert (Hmono : ∀ sigs m k, is_Some (m !! k) →
            is_Some (foldl (register_step abi d) m sigs !! k)).
  { clear sigs. induction sigs as [|s sigs IH]; intros m k Hk; simpl; [done|].
    apply IH. rewrite register_step_lookup.
    destruct (entry_for abi d s); [|done]. by case_decide. }
  induction sigs as [|s sigs IH]; intros m sig Hin He; simpl.
  - by apply elem_of_nil in Hin.
  - apply elem_of_cons in Hin as [->|Hin]; [|by apply IH].
    apply Hmono. rewrite register_step_lookup.
    destruct He as [e ->]. by rewrite decide_True.
Qed.

(** **** Lookups in the merged registry *)

Lemma merged_snoc l x :
  merged (l ++ [x]) = spread (merged l) (registered x.1 x.2).
Proof. unfold merged. by rewrite foldl_app. Qed.

Lemma merged_lookup l k e :
  merged l !! k = Some e → ∃ x, x ∈ l ∧ registered x.1 x.2 !! k = Some e.
Proof.
  induction l as [|x l IH] using rev_ind.
  - unfold merged. simpl. by rewrite lookup_empty.
  - rewrite merged_snoc. unfold spread.
    intros [Hx|[_ Hl]]%lookup_union_Some_raw.
    + exists x. split; [|done]. apply elem_of_app. right. by left.
    + destruct (IH Hl) as (y & Hy & He). exists y. split; [|done].
      apply elem_of_app. by left.
Qed.

Lemma merged_last l1 x l2 k e :
  registered x.1 x.2 !! k = Some e →
  (∀ y, y ∈ l2 → registered y.1 y.2 !! k = None) →
  merged (l1 ++ x :: l2) !! k = Some e.
Proof.
  intros Hx. induction l2 as [|y l2 IH] using rev_ind; intros Hl2.
  - rewrite merged_snoc. unfold spread. by apply lookup_union_Some_l.
  - replace (l1 ++ x :: l2 ++ [y]) with ((l1 ++ x :: l2) ++ [y])
      by (by rewrite <- app_assoc).
    rewrite merged_snoc. unfold spread. rewrite lookup_union_r.
    + apply IH. intros z Hz. apply Hl2, elem_of_app. by left.
    + apply Hl2, elem_of_app. right. by left.
Qed.

Lemma merged_is_Some l x k :
  x ∈ l → is_Some (registered x.1 x.2 !! k) → is_Some (merged l !! k).
Proof.
  induction l as [|y l IH] using rev_ind; intros Hin Hk.
  - by apply elem_of_nil in Hin.
  - rewrite merged_snoc. unfold spread. apply lookup_union_is_Some.
    apply elem_of_app in Hin as [Hin|Hin%list_elem_of_singleton].
    + right. by apply IH.
    + left. by subst.
Qed.

(** **** The registry as a whole *)

Lemma masterMapping_Normal c con :
  well_formed c →
  masterMapping c con
  = (con ++ (corpus c ≫= λ x, missing_lines x.1 (event_signatures x.1)),
     Normal (merged (corpus c))).
Proof.
  unfold well_formed, corpus. rewrite !Forall_cons. simpl.
  intros ([s1 H1] & [s2 H2] & [s3 H3] & [s4 H4] & [s5 H5] & [s6 H6]
          & [s7 H7] & [s8 H8] & [s9 H9] & _).
  unfold masterMapping, bind.
  rewrite (getContractEvents_Normal _ _ _ _ H1), (getContractEvents_Normal _ _ _ _ H2),
    (getContractEvents_Normal _ _ _ _ H3), (getContractEvents_Normal _ _ _ _ H4),
    (getContractEvents_Normal _ _ _ _ H5), (getContractEvents_Normal _ _ _ _ H6),
    (getContractEvents_Normal _ _ _ _ H7), (getContractEvents_Normal _ _ _ _ H8),
    (getContractEvents_Normal _ _ _ _ H9).
  unfold ret, merged, event_signatures. simpl.
  rewrite H1, H2, H3, H4, H5, H6, H7, H8, H9. simpl.
  by rewrite app_nil_r, <- !app_assoc.
Qed.

Lemma masterMapping_Throw c con :
  ¬ well_formed c → (masterMapping c con).2 = Throw.
Proof.
  intros Hwf. unfold masterMapping, bind.
  repeat lazymatch goal with
  | |- context [getContractEvents ?a ?d ?k] =>
      rewrite (getContractEvents_eq a d k);
      destruct (utils.Interface a) eqn:?; [|done]
  end.
  exfalso. apply Hwf. unfold well_formed, corpus.
  repeat (apply Forall_cons; split; [simpl; eauto|]). apply Forall_nil_2.
Qed.

Lemma masterMapping_value c r :
  value_of (masterMapping c) = Some r ↔ well_formed c ∧ r = merged (corpus c).
Proof.
  destruct (decide (well_formed c)) as [Hwf|Hwf].
  - unfold value_of. rewrite masterMapping_Normal by done. simpl.
    split; [by intros [= <-] | by intros [_ ->]].
  - unfold value_of. rewrite masterMapping_Throw by done.
    split; [done | by intros [? _]].
Qed.

(** **** Where an entry comes from *)

Lemma entry_for_Some abi d sig e :
  entry_for abi d sig = Some e ↔
  ∃ item, head (matching_items abi sig) = Some item
          ∧ e = {| signature := sig; abi := [item]; diamondEvent := d;
                   operation := item_name item ≫= insertionMapping_at |}.
Proof.
  unfold entry_for. destruct (head (matching_items abi sig)) as [item|]; simpl.
  - split; [intros [= <-]; eauto | by intros (? & [= <-] & ->)].
  - split; [done | by intros (? & [=] & _)].
Qed.

Lemma registered_origin abi d k e :
  registered abi d !! k = Some e →
  ∃ sig, sig ∈ event_signatures abi ∧ k = utils.id sig
         ∧ entry_for abi d sig = Some e.
Proof.
  unfold registered. intros [[Hk _]|Hsig]%registered_lookup; [|done].
  by rewrite lookup_empty in Hk.
Qed.

Lemma master_origin c r k e :
  value_of (masterMapping c) = Some r → r !! k = Some e →
  ∃ x sig, x ∈ corpus c ∧ sig ∈ event_signatures x.1 ∧ k = utils.id sig
           ∧ entry_for x.1 x.2 sig = Some e.
Proof.
  intros [_ ->]%masterMapping_value (x & Hx & Hk)%merged_lookup.
  apply registered_origin in Hk as (sig & ? & ? & ?). by exists x, sig.
Qed.

(** The head of a filtered list is the first element that passes. *)
Lemma head_filter_Some {A} (P : A → Prop) `{!∀ x, Decision (P x)} l x :
  head (filter P l) = Some x →
  ∃ before after, l = before ++ x :: after ∧ P x ∧ Forall (λ y, ¬ P y) before.
Proof.
  induction l as [|y l IH]; [done|].
  rewrite filter_cons. destruct (decide (P y)) as [Hy|Hy]; simpl.
  - intros [= ->]. exists [], l. by repeat split.
  - intros (before & after & -> & Hx & Hb)%IH.
    exists (y :: before), after. repeat split; [done|]. by constructor.
Qed.

Lemma well_formed_value c x :
  well_formed c → x ∈ corpus c →
  value_of (getContractEvents x.1 x.2) = Some (registered x.1 x.2).
Proof.
  intros Hwf Hx. apply getContractEvents_value. split; [|done].
  unfold well_formed in Hwf. rewrite Forall_forall in Hwf. by apply Hwf.
Qed.

(** An entry of the mapping of one ABI: its signature is an event
    signature of that ABI, its key the hash of the signature, its flag the
    one the ABI is read with, and its fragment list the first entry of
    that ABI that carries the name of the event. *)
Lemma registered_first_fragment abi0 d k e :
  registered abi0 d !! k = Some e →
  signature e ∈ event_signatures abi0
  ∧ k = utils.id (signature e)
  ∧ diamondEvent e = d
  ∧ ∃ before item after,
      abi e = [item]
      ∧ abi0 = before ++ item :: after
      ∧ item_name item = Some (split_head "(" (signature e))
      ∧ Forall (λ y, item_name y ≠ Some (split_head "(" (signature e))) before.
Proof.
  intros (sig & Hsig & -> & He)%registered_origin.
  apply entry_for_Some in He as (item & Hhead & ->). simpl.
  apply head_filter_Some in Hhead as (before & after & Hsplit & Hname & Hb).
  repeat (split; [done|]). by exists before, item, after.
Qed.

(** C3: every entry that [getContractEvents] writes for an ABI stores a
    list of exactly one ABI fragment, and that fragment is the first
    entry, in the order of that same ABI, whose name is the name of the
    event (the text of the signature before its parenthesis), however many
    entries of the ABI carry the name; the signature of the entry is an
    event signature of that ABI, its key the hash of the signature and its
    flag the one the ABI is read with. Every entry of the registry is such
    an entry of the mapping of one ABI of the corpus, under the same key. *)
Theorem registry_entry_single_first_fragment :
  (∀ abi0 d m k e,
     value_of (getContractEvents abi0 d) = Some m →
     m !! k = Some e →
     signature e ∈ event_signatures abi0
     ∧ k = utils.id (signature e)
     ∧ diamondEvent e = d
     ∧ ∃ before item after,
         abi e = [item]
         ∧ abi0 = before ++ item :: after
         ∧ item_name item = Some (split_head "(" (signature e))
         ∧ Forall (λ y, item_name y ≠ Some (split_head "(" (signature e)))
                  before)
  ∧ (∀ c r k e,
       value_of (masterMapping c) = Some r →
       r !! k = Some e →
       ∃ source m before item after,
         source ∈ corpus c
         ∧ value_of (getContractEvents source.1 source.2) = Some m
         ∧ m !! k = Some e
         ∧ signature e ∈ event_signatures source.1
         ∧ k = utils.id (signature e)
         ∧ diamondEvent e = source.2
         ∧ abi e = [item]
         ∧ source.1 = before ++ item :: after
         ∧ item_name item = Some (split_head "(" (signature e))
         ∧ Forall (λ y, item_name y ≠ Some (split_head "(" (signature e)))
                  before).
Proof.
  split.
  - intros abi0 d m k e [_ ->]%getContractEvents_value Hk.
    by apply registered_first_fragment.
  - intros c r k e [Hwf ->]%masterMapping_value (x & Hx & Hk)%merged_lookup.
    destruct (registered_first_fragment _ _ _ _ Hk)
      as (Hsig & Hid & Hd & before & item & after & Habi & Hsplit & Hname & Hb).
    exists x, (registered x.1 x.2), before, item, after.
    split; [done|]. split; [by apply (well_formed_value c)|].
    by repeat (split; [done|]).
Qed.

(** C4: hashing is a function of the text alone, so the same text always
    gets the same identifier; and every entry of the registry sits under
    the identifier obtained by hashing the signature it stores. *)
Theorem hasher_deterministic_and_entries_keyed_by_hash :
  (∀ text1 text2 : string, text1 = text2 → utils.id text1 = utils.id text2)
  ∧ (∀ c r k e,
       value_of (masterMapping c) = Some r →
       r !! k = Some e →
       k = utils.id (signature e)).
Proof.
  split; [by intros ? ? ->|].
  intros c r k e Hr Hk.
  destruct (master_origin _ _ _ _ Hr Hk) as (x & sig & _ & _ & -> & He).
  by apply entry_for_Some in He as (item & _ & ->).
Qed.

(** C8: when two ABIs of the corpus register an event under the same
    identifier, construction completes and the registry holds, under that
    identifier, the entry of the ABI that comes last in the build order
    among those that register it. *)
Theorem colliding_identifier_last_write_wins c i j xi xj mi mj k ei ej :
  well_formed c →
  i < j →
  corpus c !! i = Some xi →
  corpus c !! j = Some xj →
  value_of (getContractEvents xi.1 xi.2) = Some mi →
  value_of (getContractEvents xj.1 xj.2) = Some mj →
  mi !! k = Some ei →
  mj !! k = Some ej →
  (∀ j' y m', j < j' → corpus c !! j' = Some y →
     value_of (getContractEvents y.1 y.2) = Some m' → m' !! k = None) →
  ∃ r, value_of (masterMapping c) = Some r ∧ r !! k = Some ej.
Proof.
  intros Hwf _ _ Hj _ [_ ->]%getContractEvents_value _ Hej Hlater.
  exists (merged (corpus c)). split; [by apply (masterMapping_value c)|].
  rewrite <- (take_drop_middle _ _ _ Hj). apply merged_last; [done|].
  intros y Hy. apply list_elem_of_lookup in Hy as [n Hn].
  rewrite lookup_drop in Hn.
  apply (Hlater (S j + n) y (registered y.1 y.2)); [lia|done|].
  apply (well_formed_value c); [done|]. apply list_elem_of_lookup. eauto.
Qed.

(** **** Signatures without entry *)

Lemma missing_line_logged abi sigs sig :
  sig ∈ sigs → matching_items abi sig = [] →
  missing_line sig ∈ missing_lines abi sigs.
Proof.
  intros Hin Hm. unfold missing_lines.
  apply list_elem_of_fmap_2, list_elem_of_filter. by split.
Qed.

Lemma entry_for_signature abi d sig e :
  entry_for abi d sig = Some e →
  signature e = sig ∧ matching_items abi sig ≠ [].
Proof.
  intros (item & Hhead & ->)%entry_for_Some. split; [done|].
  intros Hnil. by rewrite Hnil in Hhead.
Qed.

(** C1 (amended): two ABIs that register an event under the same
    identifier do not stop the construction. A registry is returned, and it
    holds one entry under that identifier, the entry of one of the ABIs of
    the corpus that register it. *)
Theorem colliding_identifier_keeps_one_entry c i j xi xj mi mj k :
  well_formed c →
  i < j →
  corpus c !! i = Some xi →
  corpus c !! j = Some xj →
  value_of (getContractEvents xi.1 xi.2) = Some mi →
  value_of (getContractEvents xj.1 xj.2) = Some mj →
  is_Some (mi !! k) →
  is_Some (mj !! k) →
  ∃ r e, value_of (masterMapping c) = Some r
         ∧ r !! k = Some e
         ∧ ∃ x m, x ∈ corpus c
                  ∧ value_of (getContractEvents x.1 x.2) = Some m
                  ∧ m !! k = Some e.
Proof.
  intros Hwf _ _ Hj _ [_ ->]%getContractEvents_value _ Hk.
  assert (Hin : xj ∈ corpus c) by (apply list_elem_of_lookup; eauto).
  destruct (merged_is_Some _ _ _ Hin Hk) as [e He].
  exists (merged (corpus c)), e.
  split; [by apply (masterMapping_value c)|]. split; [done|].
  apply merged_lookup in He as (x & Hx & He).
  exists x, (registered x.1 x.2). by rewrite (well_formed_value c).
Qed.

(** C2 (amended): a signature of an ABI for which no entry of the ABI
    carries the event's name does not stop the construction. The call for
    that ABI writes the line [Couldn't find ABI for signature ...] on the
    console and returns a mapping without entry for the signature, and the
    registry is built. *)
Theorem missing_fragment_logged_and_skipped c x sig con :
  well_formed c →
  x ∈ corpus c →
  sig ∈ event_signatures x.1 →
  matching_items x.1 sig = [] →
  (∃ con1 m, getContractEvents x.1 x.2 con = (con1, Normal m)
             ∧ "Couldn't find ABI for signature " +:+ sig ∈ con1
             ∧ ∀ k e, m !! k = Some e → signature e ≠ sig)
  ∧ (∃ con2 r, masterMapping c con = (con2, Normal r)
               ∧ "Couldn't find ABI for signature " +:+ sig ∈ con2).
Proof.
  intros Hwf Hx Hsig Hm. split.
  - assert (Hi : is_Some (utils.Interface x.1)).
    { unfold well_formed in Hwf. rewrite Forall_forall in Hwf. by apply Hwf. }
    destruct Hi as [sigs Hi].
    eexists _, _. split; [by apply getContractEvents_Normal|]. split.
    + apply elem_of_app. right. apply missing_line_logged; [|done].
      unfold event_signatures in Hsig. by rewrite Hi in Hsig.
    + intros k e (sig' & _ & _ & He)%registered_origin Heq.
      apply entry_for_signature in He as [Hs He]. congruence.
  - eexists _, _. split; [by apply masterMapping_Normal|].
    apply elem_of_app. right. apply list_elem_of_bind. exists x. split; [|done].
    by apply missing_line_logged.
Qed.

(** **** Events registered under a collision-free hasher *)

Lemma corpus_signature c x sig :
  x ∈ corpus c → sig ∈ event_signatures x.1 → sig ∈ corpus_signatures c.
Proof. intros Hx Hsig. apply list_elem_of_bind. by exists x. Qed.

Lemma collision_free_inj c s1 s2 :
  collision_free c →
  s1 ∈ corpus_signatures c → s2 ∈ corpus_signatures c →
  utils.id s1 = utils.id s2 → s1 = s2.
Proof.
  unfold collision_free. rewrite Forall_forall. intros Hcf H1 H2.
  specialize (Hcf s1 H1). rewrite Forall_forall in Hcf. by apply Hcf.
Qed.

(** The entry the registry holds for an event that an ABI declares. *)
Lemma master_declared c x name sig :
  well_formed c → collision_free c →
  x ∈ corpus c → declares x.1 name sig →
  ∃ e source item,
    merged (corpus c) !! utils.id sig = Some e
    ∧ source ∈ corpus c
    ∧ declares source.1 name sig
    ∧ head (matching_items source.1 sig) = Some item
    ∧ e = {| signature := sig; abi := [item]; diamondEvent := source.2;
             operation := insertionMapping_at name |}.
Proof.
  intros Hwf Hcf Hx (Hsig & Hname & Hm).
  assert (Hreg : is_Some (registered x.1 x.2 !! utils.id sig)).
  { apply registered_is_Some; [done|]. unfold entry_for.
    destruct (matching_items x.1 sig); [done|]. simpl. eauto. }
  destruct (merged_is_Some _ _ _ Hx Hreg) as [e He].
  destruct (merged_lookup _ _ _ He) as (y & Hy & Hk).
  apply registered_origin in Hk as (sig' & Hsig' & Hid & Hentry).
  assert (sig = sig') as <-.
  { apply (collision_free_inj c); eauto using corpus_signature. }
  apply entry_for_Some in Hentry as (item & Hhead & ->).
  destruct (head_filter_Some _ _ _ Hhead) as (_ & _ & _ & Hitem & _).
  rewrite Hitem, Hname in He. simpl in He.
  eexists _, y, item. repeat split; try done.
  intros Hnil. by rewrite Hnil in Hhead.
Qed.

Lemma split_head_differs (s1 s2 : string) :
  split_head "(" s1 ≠ split_head "(" s2 → s1 ≠ s2.
Proof. congruence. Qed.

(** A name the table binds is read as the table binds it. *)
Lemma insertionMapping_at_own name handler :
  insertionMapping !! name = Some handler →
  insertionMapping_at name = Some handler.
Proof. unfold insertionMapping_at, get. by intros ->. Qed.

(** A name the table does not bind is read up the prototype chain. *)
Lemma insertionMapping_at_inherited name :
  insertionMapping !! name = None →
  insertionMapping_at name
  = if decide (name ∈ Object_prototype) then Some (ObjectPrototype name)
    else None.
Proof. unfold insertionMapping_at, get. by intros ->. Qed.

(** Two events of different names bound to one handler are two entries
    under two identifiers, with that handler in both. *)
Lemma shared_handler c r x1 x2 name1 name2 sig1 sig2 handler :
  value_of (masterMapping c) = Some r →
  collision_free c →
  x1 ∈ corpus c → x2 ∈ corpus c →
  declares x1.1 name1 sig1 → declares x2.1 name2 sig2 →
  name1 ≠ name2 →
  insertionMapping !! name1 = Some handler →
  insertionMapping !! name2 = Some handler →
  ∃ e1 e2, r !! utils.id sig1 = Some e1
           ∧ r !! utils.id sig2 = Some e2
           ∧ utils.id sig1 ≠ utils.id sig2
           ∧ e1 ≠ e2
           ∧ operation e1 = Some handler
           ∧ operation e2 = Some handler.
Proof.
  intros [Hwf ->]%masterMapping_value Hcf Hx1 Hx2 Hd1 Hd2 Hne
    Hh1%insertionMapping_at_own Hh2%insertionMapping_at_own.
  destruct (master_declared c x1 name1 sig1) as (e1 & y1 & i1 & He1 & _ & _ & _ & ->);
    [done..|].
  destruct (master_declared c x2 name2 sig2) as (e2 & y2 & i2 & He2 & _ & _ & _ & ->);
    [done..|].
  assert (Hsig : sig1 ≠ sig2).
  { apply split_head_differs. destruct Hd1 as (_ & -> & _).
    by destruct Hd2 as (_ & -> & _). }
  eexists _, _. repeat split; [done|done| | |done|done].
  - intros Hid. apply Hsig, (collision_free_inj c); [done|..|done].
    + destruct Hd1 as [? _]. eauto using corpus_signature.
    + destruct Hd2 as [? _]. eauto using corpus_signature.
  - intros Heq. apply (f_equal signature) in Heq. exact (Hsig Heq).
Qed.

(** C5: the classic event [ProductCreated] and the diamond event
    [CreatedCollection] are two entries of the registry, under two
    identifiers, and both carry the handler [insertCollection]; likewise
    [NewContractDeployed] and [DeployedContract] with [insertContract].
    The hasher is taken not to collide on the signatures of the corpus. *)
Theorem generations_share_handler c r :
  value_of (masterMapping c) = Some r →
  collision_free c →
  (∀ x1 x2 sig1 sig2,
     x1 ∈ corpus c → x2 ∈ corpus c →
     declares x1.1 "ProductCreated" sig1 →
     declares x2.1 "CreatedCollection" sig2 →
     ∃ e1 e2, r !! utils.id sig1 = Some e1
              ∧ r !! utils.id sig2 = Some e2
              ∧ utils.id sig1 ≠ utils.id sig2
              ∧ e1 ≠ e2
              ∧ operation e1 = Some insertCollection
              ∧ operation e2 = Some insertCollection)
  ∧ (∀ x1 x2 sig1 sig2,
       x1 ∈ corpus c → x2 ∈ corpus c →
       declares x1.1 "NewContractDeployed" sig1 →
       declares x2.1 "DeployedContract" sig2 →
       ∃ e1 e2, r !! utils.id sig1 = Some e1
                ∧ r !! utils.id sig2 = Some e2
                ∧ utils.id sig1 ≠ utils.id sig2
                ∧ e1 ≠ e2
                ∧ operation e1 = Some insertContract
                ∧ operation e2 = Some insertContract).
Proof.
  intros Hr Hcf. split; intros x1 x2 sig1 sig2 Hx1 Hx2 Hd1 Hd2.
  - by apply (shared_handler c r x1 x2 "ProductCreated" "CreatedCollection").
  - by apply (shared_handler c r x1 x2 "NewContractDeployed" "DeployedContract").
Qed.

(** An event whose name [insertionMapping] does not bind, and which is
    not the name of a member of [Object.prototype], does not stop the
    construction, and the registry holds it: an entry under the hash of
    its signature, with the signature, the one matching fragment and the
    flag of an ABI of the corpus that declares it, and no handler. The
    hasher is taken not to collide on the signatures of the corpus. *)
Lemma unbound_event_registered_without_handler c x name sig :
  well_formed c →
  collision_free c →
  x ∈ corpus c →
  declares x.1 name sig →
  insertionMapping !! name = None →
  name ∉ Object_prototype →
  ∃ r e source item,
    value_of (masterMapping c) = Some r
    ∧ r !! utils.id sig = Some e
    ∧ operation e = None
    ∧ signature e = sig
    ∧ source ∈ corpus c
    ∧ declares source.1 name sig
    ∧ head (matching_items source.1 sig) = Some item
    ∧ abi e = [item]
    ∧ diamondEvent e = source.2.
Proof.
  intros Hwf Hcf Hx Hd Hnone Hown.
  destruct (master_declared c x name sig)
    as (e & y & item & He & Hy & Hdecl & Hhead & ->);
    [done..|].
  eexists _, _, y, item.
  split; [by apply (masterMapping_value c)|].
  split; [exact He|]. split; [|by repeat (split; [done|])].
  simpl. rewrite insertionMapping_at_inherited by done. by rewrite decide_False.
Qed.

(** C6 fails on the code for the names every object inherits: an event
    whose name [insertionMapping] does not bind, but which is the name of
    a member of [Object.prototype] (such as [toString]), is registered
    with that inherited member as its handler, not with an empty one: the
    access [insertionMapping[singleAbi.name]] looks up the prototype
    chain. The hasher is taken not to collide on the signatures of the
    corpus. *)
Theorem inherited_name_registered_with_a_handler c x name sig :
  well_formed c →
  collision_free c →
  x ∈ corpus c →
  declares x.1 name sig →
  insertionMapping !! name = None →
  name ∈ Object_prototype →
  ∃ r e,
    value_of (masterMapping c) = Some r
    ∧ r !! utils.id sig = Some e
    ∧ signature e = sig
    ∧ operation e = Some (ObjectPrototype name)
    ∧ operation e ≠ None.
Proof.
  intros Hwf Hcf Hx Hd Hnone Hproto.
  destruct (master_declared c x name sig)
    as (e & y & item & He & Hy & Hdecl & Hhead & ->);
    [done..|].
  eexists _, _.
  split; [by apply (masterMapping_value c)|].
  split; [exact He|]. split; [done|]. simpl.
  rewrite insertionMapping_at_inherited by done. by rewrite decide_True.
Qed.

End RegistryFacts.

(** ** The theorems at work on the example corpus *)

#[local] Existing Instance EthersV5.ethers.

Import Examples.

Ltac by_compute :=
  lazymatch goal with
  | |- ?P => apply (bool_decide_unpack P); vm_compute; exact I
  end.

(** The reference implementation writes [uint] and [int] in full in a
    signature, and refuses an entry of a type the library does not know. *)
Lemma Interface_on_unsized_and_unknown_types :
  utils.Interface
    [JsonFragment "event" (Some "Paid")
       [input "uint" "amount" false; input "int[]" "deltas" false;
        input "uint8" "kind" false]]
  = Some ["Paid(uint256,int256[],uint8)"]
  ∧ utils.Interface [JsonFragment "foo" None []] = None.
Proof. split; vm_compute; reflexivity. Qed.

Lemma contracts_well_formed : well_formed contracts.
Proof. by_compute. Qed.

Lemma readable_contracts_well_formed : well_formed readable_contracts.
Proof. by_compute. Qed.

Lemma contracts_collision_free : collision_free contracts.
Proof. by_compute. Qed.

Lemma contracts_registry :
  value_of (masterMapping contracts) = Some (merged (corpus contracts)).
Proof. apply masterMapping_value. split; [apply contracts_well_formed|done]. Qed.

Lemma contracts_value x :
  x ∈ corpus contracts →
  value_of (getContractEvents x.1 x.2) = Some (registered x.1 x.2).
Proof. apply well_formed_value, contracts_well_formed. Qed.

(** C1 fails on the code: the classic token ABI and the diamond factory
    ABI both register [Transfer(address,address,uint256)], under the same
    identifier and with different entries, and the construction returns a
    registry all the same. *)
Lemma conflict_not_detected :
  value_of (getContractEvents (erc721Abi contracts) false)
    ≫= (.!! Transfer_id) = Some Transfer_classic
  ∧ value_of (getContractEvents (diamondFactoryAbi contracts) true)
      ≫= (.!! Transfer_id) = Some Transfer_diamond
  ∧ Transfer_classic ≠ Transfer_diamond
  ∧ value_of (masterMapping contracts) ≠ None.
Proof.
  split; [vm_compute; reflexivity|].
  split; [vm_compute; reflexivity|].
  split; [intros [=]|].
  rewrite contracts_registry. intros [=].
Qed.

(** C2 fails on the code: the items of a human-readable ABI have no
    [name], so no entry matches the signature of its event, and the
    construction returns a registry all the same. *)
Lemma missing_fragment_not_fatal :
  ReceivedTokens_signature
    ∈ event_signatures (creditHandlerEvents readable_contracts)
  ∧ matching_items (creditHandlerEvents readable_contracts)
      ReceivedTokens_signature = []
  ∧ value_of (masterMapping readable_contracts) ≠ None.
Proof.
  split; [by_compute|]. split; [vm_compute; reflexivity|].
  intros Hnone.
  assert (Hr := proj2 (masterMapping_value readable_contracts _)
                  (conj readable_contracts_well_formed eq_refl)).
  congruence.
Qed.

(** The amended C1 on the shared [Transfer] event. *)
Lemma colliding_identifier_keeps_one_entry_witness :
  ∃ r e, value_of (masterMapping contracts) = Some r
         ∧ r !! Transfer_id = Some e
         ∧ ∃ x m, x ∈ corpus contracts
                  ∧ value_of (getContractEvents x.1 x.2) = Some m
                  ∧ m !! Transfer_id = Some e.
Proof.
  apply (colliding_identifier_keeps_one_entry contracts 0 3
           (erc721Abi contracts, false) (diamondFactoryAbi contracts, true)
           (registered (erc721Abi contracts) false)
           (registered (diamondFactoryAbi contracts) true)).
  - apply contracts_well_formed.
  - lia.
  - reflexivity.
  - reflexivity.
  - apply (contracts_value (erc721Abi contracts, false)). by_compute.
  - apply (contracts_value (diamondFactoryAbi contracts, true)). by_compute.
  - exists Transfer_classic. vm_compute; reflexivity.
  - exists Transfer_diamond. vm_compute; reflexivity.
Defined.

(** The amended C2 on the human-readable credit handler ABI. *)
Lemma missing_fragment_logged_and_skipped_witness :
  (∃ con1 m,
     getContractEvents (creditHandlerEvents readable_contracts) true []
     = (con1, Normal m)
     ∧ "Couldn't find ABI for signature " +:+ ReceivedTokens_signature ∈ con1
     ∧ ∀ k e, m !! k = Some e → signature e ≠ ReceivedTokens_signature)
  ∧ (∃ con2 r,
       masterMapping readable_contracts [] = (con2, Normal r)
       ∧ "Couldn't find ABI for signature " +:+ ReceivedTokens_signature ∈ con2).
Proof.
  apply (missing_fragment_logged_and_skipped readable_contracts
           (creditHandlerEvents readable_contracts, true)).
  - apply readable_contracts_well_formed.
  - by_compute.
  - by_compute.
  - vm_compute; reflexivity.
Defined.

(** C3 on the event declared twice: the entry of the second signature
    holds the first fragment named [TokenMinted], in the mapping of the
    marketplace ABI and in the registry. *)
Lemma registry_entry_single_first_fragment_witness :
  (signature TokenMinted_short_entry ∈ event_signatures (minterAbi contracts)
   ∧ TokenMinted_short_id = utils.id (signature TokenMinted_short_entry)
   ∧ diamondEvent TokenMinted_short_entry = false
   ∧ ∃ before item after,
       abi TokenMinted_short_entry = [item]
       ∧ minterAbi contracts = before ++ item :: after
       ∧ item_name item
         = Some (split_head "(" (signature TokenMinted_short_entry))
       ∧ Forall (λ y, item_name y
                      ≠ Some (split_head "(" (signature TokenMinted_short_entry)))
                before)
  ∧ (∃ source m before item after,
       source ∈ corpus contracts
       ∧ value_of (getContractEvents source.1 source.2) = Some m
       ∧ m !! TokenMinted_short_id = Some TokenMinted_short_entry
       ∧ signature TokenMinted_short_entry ∈ event_signatures source.1
       ∧ TokenMinted_short_id = utils.id (signature TokenMinted_short_entry)
       ∧ diamondEvent TokenMinted_short_entry = source.2
       ∧ abi TokenMinted_short_entry = [item]
       ∧ source.1 = before ++ item :: after
       ∧ item_name item
         = Some (split_head "(" (signature TokenMinted_short_entry))
       ∧ Forall (λ y, item_name y
                      ≠ Some (split_head "(" (signature TokenMinted_short_entry)))
                before).
Proof.
  split.
  - apply (proj1 registry_entry_single_first_fragment (minterAbi contracts)
             false (registered (minterAbi contracts) false)).
    + apply (contracts_value (minterAbi contracts, false)). by_compute.
    + vm_compute; reflexivity.
  - apply (proj2 registry_entry_single_first_fragment contracts
             (merged (corpus contracts))).
    + apply contracts_registry.
    + vm_compute; reflexivity.
Defined.

(** C4 on [Transfer]: the key of its entry is the Keccak-256 digest of its
    signature. *)
Lemma hasher_deterministic_and_entries_keyed_by_hash_witness :
  Transfer_id = utils.id (signature Transfer_diamond).
Proof.
  apply (proj2 hasher_deterministic_and_entries_keyed_by_hash contracts
           (merged (corpus contracts))).
  - apply contracts_registry.
  - vm_compute; reflexivity.
Defined.

(** C8 on the shared [Transfer] event: the diamond factory comes after the
    classic token, and no ABI after it registers the event. *)
Lemma colliding_identifier_last_write_wins_witness :
  ∃ r, value_of (masterMapping contracts) = Some r
       ∧ r !! Transfer_id = Some Transfer_diamond.
Proof.
  apply (colliding_identifier_last_write_wins contracts 0 3
           (erc721Abi contracts, false) (diamondFactoryAbi contracts, true)
           (registered (erc721Abi contracts) false)
           (registered (diamondFactoryAbi contracts) true)
           Transfer_id Transfer_classic Transfer_diamond).
  - apply contracts_well_formed.
  - lia.
  - reflexivity.
  - reflexivity.
  - apply (contracts_value (erc721Abi contracts, false)). by_compute.
  - apply (contracts_value (diamondFactoryAbi contracts, true)). by_compute.
  - vm_compute; reflexivity.
  - vm_compute; reflexivity.
  - intros j' y m' Hlt Hy Hm'.
    do 4 (destruct j' as [|j']; [lia|]).
    do 5 (destruct j' as [|j'];
          [injection Hy as <-;
           apply getContractEvents_value in Hm' as [_ ->];
           vm_compute; reflexivity|]).
    discriminate Hy.
Defined.

(** C5 on the example corpus. *)
Lemma generations_share_handler_witness :
  (∃ e1 e2,
     merged (corpus contracts)
       !! utils.id "ProductCreated(uint256,string,uint256,uint256)" = Some e1
     ∧ merged (corpus contracts)
         !! utils.id "CreatedCollection(uint256,string,uint256,uint256)" = Some e2
     ∧ utils.id "ProductCreated(uint256,string,uint256,uint256)"
       ≠ utils.id "CreatedCollection(uint256,string,uint256,uint256)"
     ∧ e1 ≠ e2
     ∧ operation e1 = Some insertCollection
     ∧ operation e2 = Some insertCollection)
  ∧ (∃ e1 e2,
       merged (corpus contracts)
         !! utils.id "NewContractDeployed(address,uint256,address,string)" = Some e1
       ∧ merged (corpus contracts)
           !! utils.id "DeployedContract(address,uint256,address,string)" = Some e2
       ∧ utils.id "NewContractDeployed(address,uint256,address,string)"
         ≠ utils.id "DeployedContract(address,uint256,address,string)"
       ∧ e1 ≠ e2
       ∧ operation e1 = Some insertContract
       ∧ operation e2 = Some insertContract).
Proof.
  destruct (generations_share_handler contracts (merged (corpus contracts))
              contracts_registry contracts_collision_free) as [Hcol Hdep].
  split.
  - apply (Hcol (erc721Abi contracts, false) (diamondFactoryAbi contracts, true));
      by_compute.
  - apply (Hdep (factoryAbi contracts, false) (diamondFactoryAbi contracts, true));
      by_compute.
Defined.

(** [Transfer], for which [insertionMapping] has no handler and which no
    object inherits, is registered without handler. *)
Lemma Transfer_registered_without_handler :
  ∃ r e source item,
    value_of (masterMapping contracts) = Some r
    ∧ r !! utils.id Transfer_signature = Some e
    ∧ operation e = None
    ∧ signature e = Transfer_signature
    ∧ source ∈ corpus contracts
    ∧ declares source.1 "Transfer" Transfer_signature
    ∧ head (matching_items source.1 Transfer_signature) = Some item
    ∧ abi e = [item]
    ∧ diamondEvent e = source.2.
Proof.
  apply (unbound_event_registered_without_handler contracts
           (erc721Abi contracts, false)).
  - apply contracts_well_formed.
  - apply contracts_collision_free.
  - by_compute.
  - by_compute.
  - vm_compute; reflexivity.
  - by_compute.
Qed.

(** C6 on an event named [toString]: the table does not bind the name,
    and the entry of the event holds [Object.prototype.toString]. *)
Lemma inherited_name_registered_with_a_handler_witness :
  ∃ r e,
    value_of (masterMapping inherited_contracts) = Some r
    ∧ r !! utils.id toString_signature = Some e
    ∧ signature e = toString_signature
    ∧ operation e = Some (ObjectPrototype "toString")
    ∧ operation e ≠ None.
Proof.
  apply (inherited_name_registered_with_a_handler inherited_contracts
           (creditHandlerEvents inherited_contracts, true) "toString").
  - by_compute.
  - by_compute.
  - by_compute.
  - by_compute.
  - vm_compute; reflexivity.
  - by_compute.
Defined.

(** * Properties of the contract RAIR_ERC721 *)

Section ContractFacts.
Import RAIR_ERC721.
Context {Base : Type}.
Local Open Scope Z_scope.

Lemma from_option_last_cons {A B} (f : A → B) (l : list A) : ∀ d x,
  from_option f d (last (x :: l)) = from_option f (f x) (last l).
Proof.
  induction l as [|y l IH]; intros d x; [done|].
  by rewrite last_cons_cons, (IH d y), (IH (f x) y).
Qed.

Lemma contiguous_snoc (l : list collection) : ∀ start c,
  contiguous start l →
  startingToken c = from_option endingToken start (last l) →
  contiguous start (l ++ [c]).
Proof.
  induction l as [|p l IH]; intros start c Hl Hc.
  - simpl in *. by split.
  - destruct Hl as [Hp Hl]. split; [done|]. apply IH; [done|].
    by rewrite Hc, from_option_last_cons.
Qed.

Lemma createCollection_Success (s s' : State Base) msg cname copies resaleAt events :
  createCollection msg cname copies resaleAt s = Success (s', events) →
  msg_value msg = 0
  ∧ hasRole s CREATOR (msg_sender msg) = true
  ∧ resaleAt ≤ copies
  ∧ from_option endingToken 0 (last (_collections s)) + copies ≤ max_uint
  ∧ s' = {| _collections :=
              _collections s
              ++ [{| startingToken := from_option endingToken 0 (last (_collections s));
                     endingToken :=
                       from_option endingToken 0 (last (_collections s)) + copies;
                     mintableTokens := copies;
                     enableResaleAt := resaleAt;
                     name := cname |}];
            tokenToCollection := tokenToCollection s;
            hasRole := hasRole s;
            base := base s |}.
Proof.
  unfold createCollection, checked_add.
  destruct (msg_value msg =? 0) eqn:Hvalue; simpl; [|done].
  apply Z.eqb_eq in Hvalue.
  destruct (hasRole s CREATOR (msg_sender msg)); simpl; [|done].
  destruct (resaleAt <=? copies) eqn:Hle; simpl; [|done].
  apply Z.leb_le in Hle.
  replace (match last (_collections s) with
           | Some c => endingToken c
           | None => 0
           end) with (from_option endingToken 0 (last (_collections s)))
    by (by destruct (last (_collections s))).
  destruct (_ + copies <=? max_uint) eqn:Hmax; [|done].
  apply Z.leb_le in Hmax. by intros [= <- _].
Qed.

(** C9: a call of [createCollection] with fewer copies than [_resaleAt]
    reverts; a successful call appends one collection, which starts at 0
    when it is the first and at the end of the previous collection
    otherwise, and ends [_copies] tokens further, so that the collections
    stay contiguous; and the call does succeed when it carries no value,
    comes from a creator, the copies cover [_resaleAt] and the last token
    fits in a [uint]. *)
Theorem createCollection_partitions_contiguously
    (s : State Base) msg cname copies resaleAt :
  (copies < resaleAt →
   ∃ reason, createCollection msg cname copies resaleAt s = Revert reason)
  ∧ (∀ s' events,
       createCollection msg cname copies resaleAt s = Success (s', events) →
       ∃ c, _collections s' = _collections s ++ [c]
            ∧ (_collections s = [] → startingToken c = 0)
            ∧ (∀ previous, last (_collections s) = Some previous →
                 startingToken c = endingToken previous)
            ∧ endingToken c = startingToken c + copies
            ∧ (contiguous 0 (_collections s) → contiguous 0 (_collections s')))
  ∧ (msg_value msg = 0 →
     hasRole s CREATOR (msg_sender msg) = true →
     resaleAt ≤ copies →
     from_option endingToken 0 (last (_collections s)) + copies ≤ max_uint →
     ∃ s' events,
       createCollection msg cname copies resaleAt s = Success (s', events)).
Proof.
  split; [|split].
  - intros Hlt. unfold createCollection.
    destruct (msg_value msg =? 0); simpl; [|eauto].
    destruct (hasRole s CREATOR (msg_sender msg)); simpl; [|eauto].
    destruct (resaleAt <=? copies) eqn:Hle; simpl; [|eauto].
    apply Z.leb_le in Hle. lia.
  - intros s' events (_ & _ & _ & _ & ->)%createCollection_Success. simpl.
    eexists. split; [done|]. simpl. split; [by intros ->|].
    split; [by intros previous ->|]. split; [done|].
    intros Hc. by apply contiguous_snoc.
  - intros Hvalue Hrole Hle Hmax. unfold createCollection, checked_add.
    rewrite Hvalue, Hrole. simpl.
    apply Z.leb_le in Hle. rewrite Hle. simpl.
    replace (match last (_collections s) with
             | Some c => endingToken c
             | None => 0
             end) with (from_option endingToken 0 (last (_collections s)))
      by (by destruct (last (_collections s))).
    apply Z.leb_le in Hmax. rewrite Hmax. eauto.
Qed.

Variable super_beforeTokenTransfer :
  Base → address → address → uint → Result Base.

(** The hook reads the collection on record for the token (collection 0
    when nothing is on record): a transfer between two nonzero addresses
    passes the hook only when that collection has [enableResaleAt] equal
    to 0, and reverts with the contract's message when it has not; a mint
    (from the zero address) or a burn (to the zero address) goes straight
    to the inherited hook. *)
Lemma hook_checks_the_recorded_collection
    (s : State Base) (from to : address) (tokenId : uint) :
  (from ≠ 0 → to ≠ 0 →
   (∀ s', _beforeTokenTransfer super_beforeTokenTransfer from to tokenId s
          = Success s' →
      ∃ c, collection_at s (tokenToCollection_at s tokenId) = Success c
           ∧ enableResaleAt c = 0)
   ∧ (∀ c, collection_at s (tokenToCollection_at s tokenId) = Success c →
        enableResaleAt c ≠ 0 →
        _beforeTokenTransfer super_beforeTokenTransfer from to tokenId s
        = Revert "RAIR ERC721: Transfers for this collection haven't been enabled"))
  ∧ (from = 0 ∨ to = 0 →
     _beforeTokenTransfer super_beforeTokenTransfer from to tokenId s
     = super__beforeTokenTransfer super_beforeTokenTransfer from to tokenId s).
Proof.
  unfold _beforeTokenTransfer. split.
  - intros Hfrom%Z.eqb_neq Hto%Z.eqb_neq. rewrite Hfrom, Hto. simpl. split.
    + intros s'.
      destruct (collection_at s (tokenToCollection_at s tokenId)) as [c| |];
        [|done..].
      destruct (enableResaleAt c =? 0) eqn:Hz; [|done].
      apply Z.eqb_eq in Hz. eauto.
    + intros c -> Hc%Z.eqb_neq. by rewrite Hc.
  - intros [->| ->]; simpl; [done|]. by rewrite andb_false_r.
Qed.

End ContractFacts.

(** * Properties of the dispatcher *)

Section DispatcherFacts.
Import Dispatcher.
Context {Store Args : Type}.
Variable decode : list AbiItem → string → option Args.
Variable apply_handler : Handler → Args → LogRecord → Store → option Store.
Variable registry : gmap string Entry.

Local Abbreviation run := (dispatch decode apply_handler registry).
Local Abbreviation run_all := (dispatch_all decode apply_handler registry).

(** A dispatch changes the persisted state only when it applies. *)
Lemma dispatch_unchanged r p : (run r p).1 ≠ Applied → (run r p).2 = p.
Proof.
  unfold dispatch.
  destruct (registry !! _) as [entry|]; [|done].
  destruct (operation entry) as [handler|]; [|done].
  destruct (decode (abi entry) (rawParameters r)) as [args|]; [|done].
  destruct (decide (ledger_key r ∈ ledger p)); [done|].
  by destruct (apply_handler handler args r (store p)).
Qed.

Lemma dispatch_Applied r p p' :
  run r p = (Applied, p') →
  (ledger_key r ∉ ledger p)
  ∧ ledger p' = {[ledger_key r]} ∪ ledger p
  ∧ ∃ entry handler args,
      registry !! (identifier r) = Some entry
      ∧ operation entry = Some handler
      ∧ decode (abi entry) (rawParameters r) = Some args
      ∧ apply_handler handler args r (store p) = Some (store p').
Proof.
  unfold dispatch.
  destruct (registry !! _) as [entry|] eqn:Hentry; [|done].
  destruct (operation entry) as [handler|] eqn:Hop; [|done].
  destruct (decode (abi entry) (rawParameters r)) as [args|] eqn:Hargs; [|done].
  destruct (decide (ledger_key r ∈ ledger p)); [done|].
  destruct (apply_handler handler args r (store p)) as [store'|] eqn:Hrun; [|done].
  intros [= <-]. simpl. split; [done|]. split; [done|].
  by exists entry, handler, args.
Qed.

(** A record whose key is in the ledger is skipped. *)
Lemma dispatch_recorded r p :
  ledger_key r ∈ ledger p → (run r p).1 ≠ Applied ∧ (run r p).2 = p.
Proof.
  intros Hin.
  assert (Hne : (run r p).1 ≠ Applied).
  { destruct (run r p) as [[] p'] eqn:Hd; simpl; try done.
    by apply dispatch_Applied in Hd as [? _]. }
  split; [done|]. by apply dispatch_unchanged.
Qed.

(** The ledger only grows. *)
Lemma dispatch_ledger_mono r p : ledger p ⊆ ledger (run r p).2.
Proof.
  destruct (run r p) as [o p'] eqn:Hd. simpl.
  destruct (decide (o = Applied)) as [->|Hne].
  - apply dispatch_Applied in Hd as (_ & -> & _). set_solver.
  - assert (Hp := dispatch_unchanged r p). rewrite Hd in Hp. simpl in Hp.
    by rewrite Hp.
Qed.

Lemma dispatch_all_ledger_mono rs : ∀ p, ledger p ⊆ ledger (run_all rs p).
Proof.
  induction rs as [|r rs IH]; intros p; simpl; [done|].
  etrans; [apply (dispatch_ledger_mono r)|apply IH].
Qed.

(** C7: once a log record has been applied, every later delivery of a
    record with the same transaction hash and log index, whatever was
    dispatched in between, is skipped and leaves the persisted state (the
    store and the ledger) as it is: the record mutated the state once, when
    it was applied. *)
Theorem redelivered_log_applied_once r p p1 rs r' :
  dispatch decode apply_handler registry r p = (Applied, p1) →
  ledger_key r' = ledger_key r →
  (ledger_key r ∉ ledger p)
  ∧ (dispatch decode apply_handler registry r'
       (dispatch_all decode apply_handler registry rs p1)).1 ≠ Applied
  ∧ (dispatch decode apply_handler registry r'
       (dispatch_all decode apply_handler registry rs p1)).2
    = dispatch_all decode apply_handler registry rs p1.
Proof.
  intros (Hfresh & Hledger & _)%dispatch_Applied Hkey.
  split; [done|]. apply dispatch_recorded. rewrite Hkey.
  apply (dispatch_all_ledger_mono rs p1). rewrite Hledger.
  apply elem_of_union_l. by apply elem_of_singleton.
Qed.

End DispatcherFacts.

(** ** The theorems at work on the example states and deliveries *)

(** C9 on the example contract: a collection of 1 copy to be resold from
    the 2nd is refused; a second collection of 5 copies starts at token 10,
    where the first ends, and ends at token 15. *)
Lemma createCollection_partitions_contiguously_witness :
  (∃ reason,
     RAIR_ERC721.createCollection ContractExamples.from_creator "Second" 1 2
       ContractExamples.locked = RAIR_ERC721.Revert reason)
  ∧ (∃ c,
       RAIR_ERC721._collections ContractExamples.two_collections
       = RAIR_ERC721._collections ContractExamples.locked ++ [c]
       ∧ (RAIR_ERC721._collections ContractExamples.locked = [] →
          RAIR_ERC721.startingToken c = 0%Z)
       ∧ (∀ previous,
            last (RAIR_ERC721._collections ContractExamples.locked) = Some previous →
            RAIR_ERC721.startingToken c = RAIR_ERC721.endingToken previous)
       ∧ RAIR_ERC721.endingToken c = (RAIR_ERC721.startingToken c + 5)%Z
       ∧ (RAIR_ERC721.contiguous 0 (RAIR_ERC721._collections ContractExamples.locked) →
          RAIR_ERC721.contiguous 0
            (RAIR_ERC721._collections ContractExamples.two_collections)))
  ∧ (∃ s' events,
       RAIR_ERC721.createCollection ContractExamples.from_creator "Second" 5 0
         ContractExamples.locked = RAIR_ERC721.Success (s', events)).
Proof.
  split; [|split].
  - apply (proj1 (createCollection_partitions_contiguously
                    ContractExamples.locked ContractExamples.from_creator "Second" 1%Z 2%Z)).
    reflexivity.
  - apply (proj1 (proj2 (createCollection_partitions_contiguously
                           ContractExamples.locked ContractExamples.from_creator
                           "Second" 5%Z 0%Z))
             ContractExamples.two_collections
             [RAIR_ERC721.CollectionCreated 1 "Second" 5;
              RAIR_ERC721.TransfersEnabled 1 "Second"]).
    vm_compute; reflexivity.
  - apply (proj2 (proj2 (createCollection_partitions_contiguously
                           ContractExamples.locked ContractExamples.from_creator
                           "Second" 5%Z 0%Z))).
    + reflexivity.
    + reflexivity.
    + vm_compute; discriminate.
    + vm_compute; discriminate.
Defined.

(** On the example contract: token 0 passes the hook once the
    collection is unlocked, is refused while it is locked, and its mint is
    left to the inherited hook. *)
Lemma hook_on_the_example_contract :
  (∃ c,
     RAIR_ERC721.collection_at ContractExamples.unlocked
       (RAIR_ERC721.tokenToCollection_at ContractExamples.unlocked 0)
     = RAIR_ERC721.Success c
     ∧ RAIR_ERC721.enableResaleAt c = 0%Z)
  ∧ RAIR_ERC721._beforeTokenTransfer ContractExamples.accept
      ContractExamples.collector ContractExamples.creator 0
      ContractExamples.locked
    = RAIR_ERC721.Revert
        "RAIR ERC721: Transfers for this collection haven't been enabled"
  ∧ RAIR_ERC721._beforeTokenTransfer ContractExamples.accept
      0 ContractExamples.collector 0 ContractExamples.locked
    = RAIR_ERC721.super__beforeTokenTransfer ContractExamples.accept
        0 ContractExamples.collector 0 ContractExamples.locked.
Proof.
  split; [|split].
  - apply (proj1 (proj1 (hook_checks_the_recorded_collection
                           ContractExamples.accept ContractExamples.unlocked
                           ContractExamples.collector ContractExamples.creator 0%Z)
                    ltac:(vm_compute; discriminate)
                    ltac:(vm_compute; discriminate))
             ContractExamples.unlocked).
    vm_compute; reflexivity.
  - apply (proj2 (proj1 (hook_checks_the_recorded_collection
                           ContractExamples.accept ContractExamples.locked
                           ContractExamples.collector ContractExamples.creator 0%Z)
                    ltac:(vm_compute; discriminate)
                    ltac:(vm_compute; discriminate))
             ContractExamples.first).
    + vm_compute; reflexivity.
    + vm_compute; discriminate.
  - apply (proj2 (hook_checks_the_recorded_collection
                    ContractExamples.accept ContractExamples.locked
                    0%Z ContractExamples.collector 0%Z)).
    by left.
Qed.

(** C10 fails on the code while a token is being minted: [mint] hands the
    token to the receiver ([_safeMint]) before it records the collection
    of the token, so the hook that the receiver's [transferFrom] runs
    reads collection 0 for it. With an open first collection and a locked
    second one, [mint(forwarder, 1)] succeeds: token 3, a token of the
    locked second collection, passes the hook and goes from the receiver
    to the collector, while the second collection still has
    [enableResaleAt] different from 0. Once the mint is over the same
    token is refused. *)
Theorem locked_token_transferred_during_its_mint :
  RAIR_ERC721.createCollection ContractExamples.from_creator "First" 3 0
    MintExamples.deployed
  = RAIR_ERC721.Success
      (MintExamples.open_created,
       [RAIR_ERC721.CollectionCreated 0 "First" 3;
        RAIR_ERC721.TransfersEnabled 0 "First"])
  ∧ RAIR_ERC721.createCollection ContractExamples.from_creator "Second" 3 2
      MintExamples.open_created
    = RAIR_ERC721.Success
        (MintExamples.open_and_locked,
         [RAIR_ERC721.CollectionCreated 1 "Second" 3])
  ∧ RAIR_ERC721.mint MintExamples.safeMint_forwarding
      ContractExamples.from_creator MintExamples.forwarder 1
      MintExamples.open_and_locked
    = RAIR_ERC721.Success (MintExamples.forwarded, [])
  ∧ (∃ c, RAIR_ERC721.collection_at MintExamples.in_callback 1
          = RAIR_ERC721.Success c
          ∧ (RAIR_ERC721.startingToken c ≤ 3 < RAIR_ERC721.endingToken c)%Z
          ∧ RAIR_ERC721.enableResaleAt c ≠ 0%Z)
  ∧ RAIR_ERC721._beforeTokenTransfer MintExamples.accept
      MintExamples.forwarder ContractExamples.collector 3
      MintExamples.in_callback
    = RAIR_ERC721.Success MintExamples.in_callback
  ∧ RAIR_ERC721.base MintExamples.forwarded
    = [(3%Z, ContractExamples.collector)]
  ∧ (∃ c, RAIR_ERC721.collection_at MintExamples.forwarded 1
          = RAIR_ERC721.Success c
          ∧ (RAIR_ERC721.startingToken c ≤ 3 < RAIR_ERC721.endingToken c)%Z
          ∧ RAIR_ERC721.enableResaleAt c ≠ 0%Z)
  ∧ RAIR_ERC721._beforeTokenTransfer MintExamples.accept
      ContractExamples.collector ContractExamples.creator 3
      MintExamples.forwarded
    = RAIR_ERC721.Revert
        "RAIR ERC721: Transfers for this collection haven't been enabled".
Proof.
  split; [vm_compute; reflexivity|].
  split; [vm_compute; reflexivity|].
  split; [vm_compute; reflexivity|].
  split.
  { exists (MintExamples.second 3 2). split; [vm_compute; reflexivity|].
    split; [simpl; lia|vm_compute; discriminate]. }
  split; [vm_compute; reflexivity|].
  split; [reflexivity|].
  split.
  { exists (MintExamples.second 2 1). split; [vm_compute; reflexivity|].
    split; [simpl; lia|vm_compute; discriminate]. }
  vm_compute; reflexivity.
Qed.

(** C7 on the example deliveries: the deployment is applied, another log
    of the transaction is applied after it, and the deployment delivered
    again changes nothing. *)
Lemma redelivered_log_applied_once_witness :
  (Dispatcher.ledger_key DispatcherExamples.deployment
     ∉ Dispatcher.ledger DispatcherExamples.empty)
  ∧ (Dispatcher.dispatch DispatcherExamples.decode_any DispatcherExamples.count
       DispatcherExamples.registry DispatcherExamples.redelivery
       (Dispatcher.dispatch_all DispatcherExamples.decode_any
          DispatcherExamples.count DispatcherExamples.registry
          [DispatcherExamples.next_deployment] DispatcherExamples.applied)).1
    ≠ Dispatcher.Applied
  ∧ (Dispatcher.dispatch DispatcherExamples.decode_any DispatcherExamples.count
       DispatcherExamples.registry DispatcherExamples.redelivery
       (Dispatcher.dispatch_all DispatcherExamples.decode_any
          DispatcherExamples.count DispatcherExamples.registry
          [DispatcherExamples.next_deployment] DispatcherExamples.applied)).2
    = Dispatcher.dispatch_all DispatcherExamples.decode_any
        DispatcherExamples.count DispatcherExamples.registry
        [DispatcherExamples.next_deployment] DispatcherExamples.applied.
Proof.
  apply (redelivered_log_applied_once DispatcherExamples.decode_any
           DispatcherExamples.count DispatcherExamples.registry
           DispatcherExamples.deployment DispatcherExamples.empty).
  - vm_compute; reflexivity.
  - reflexivity.
Defined.

(** * The views, the mint and the royalty of RAIR_ERC721 *)

Section CollectionViews.
Import RAIR_ERC721.
Context {Base : Type}.
Local Open Scope Z_scope.

Lemma collection_at_Success (s : State Base) index c :
  collection_at s index = Success c ↔
  0 ≤ index ∧ _collections s !! Z.to_nat index = Some c.
Proof.
  unfold collection_at. destruct (index <? 0) eqn:Hneg.
  - apply Z.ltb_lt in Hneg. split; [done | lia].
  - apply Z.ltb_ge in Hneg.
    destruct (_collections s !! Z.to_nat index) as [c'|]; split.
    + intros [= ->]. done.
    + intros [_ [= ->]]. done.
    + done.
    + intros [_ [=]].
Qed.

Lemma collection_at_out_of_range (s : State Base) index :
  ¬ (0 ≤ index < getCollectionCount s) → collection_at s index = Panic 0x32.
Proof.
  unfold collection_at, getCollectionCount. intros Hout.
  destruct (index <? 0) eqn:Hneg; [done|]. apply Z.ltb_ge in Hneg.
  destruct (_collections s !! Z.to_nat index) as [c|] eqn:Hc; [|done].
  apply lookup_lt_Some in Hc. lia.
Qed.

Lemma collection_at_in_range (s : State Base) index :
  0 ≤ index < getCollectionCount s → ∃ c, collection_at s index = Success c.
Proof.
  unfold getCollectionCount. intros Hin.
  destruct (lookup_lt_is_Some_2 (_collections s) (Z.to_nat index)) as [c Hc];
    [lia|].
  exists c. apply collection_at_Success. split; [lia|done].
Qed.

(** X1: [getCollection(index)] answers for the indexes below
    [getCollectionCount()], with the four figures the collection holds,
    and panics on an array index out of bounds for every other index: the
    count is what it takes to list the collections. *)
Theorem getCollection_lists_the_collections (s : State Base) index :
  (0 ≤ index < getCollectionCount s →
   ∃ c, _collections s !! Z.to_nat index = Some c
        ∧ getCollection index s
          = Success (startingToken c, endingToken c, mintableTokens c, name c))
  ∧ (¬ (0 ≤ index < getCollectionCount s) →
     getCollection index s = Panic 0x32).
Proof.
  unfold getCollection. split.
  - intros [c Hc]%collection_at_in_range. exists c. rewrite Hc.
    by apply collection_at_Success in Hc as [_ ?].
  - intros Hout. by rewrite collection_at_out_of_range.
Qed.

(** X2: a successful [createCollection] announces the index the
    collection gets in its CollectionCreated event (and TransfersEnabled
    exactly when [_resaleAt] is 0), adds one to the count, and
    [getCollection] at that index returns the start, the end [_copies]
    further, [_copies] tokens to mint and the name; the collections that
    were there read as before. *)
Theorem createCollection_then_getCollection
    (s s' : State Base) msg cname copies resaleAt events :
  createCollection msg cname copies resaleAt s = Success (s', events) →
  let index := getCollectionCount s in
  let start := from_option endingToken 0 (last (_collections s)) in
  events = CollectionCreated index cname copies
           :: (if resaleAt =? 0 then [TransfersEnabled index cname] else [])
  ∧ getCollectionCount s' = index + 1
  ∧ getCollection index s' = Success (start, start + copies, copies, cname)
  ∧ ∀ i, 0 ≤ i < index → getCollection i s' = getCollection i s.
Proof.
  intros Hcreate index start.
  assert (Hs' := Hcreate).
  apply createCollection_Success in Hs' as (Hvalue & Hrole & Hle & Hmax & ->).
  split; [|split; [|split]].
  - revert Hcreate. unfold createCollection, checked_add.
    rewrite Hvalue, Hrole. simpl.
    apply Z.leb_le in Hle. rewrite Hle. simpl.
    replace (match last (_collections s) with
             | Some c => endingToken c
             | None => 0
             end) with start by (subst start; by destruct (last (_collections s))).
    apply Z.leb_le in Hmax. fold start in Hmax. rewrite Hmax.
    intros Heq. injection Heq as <-. done.
  - subst index. unfold getCollectionCount. simpl. rewrite length_app. simpl. lia.
  - unfold getCollection, collection_at, index, getCollectionCount. simpl.
    destruct (Z.of_nat (length (_collections s)) <? 0) eqn:Hneg;
      [apply Z.ltb_lt in Hneg; lia|].
    rewrite Nat2Z.id, lookup_app_r, Nat.sub_diag by lia. done.
  - intros i Hi. unfold getCollection, collection_at. simpl.
    destruct (i <? 0); [done|].
    rewrite lookup_app_l; [done|]. unfold index, getCollectionCount in Hi. lia.
Qed.

End CollectionViews.

Section MintFacts.
Import RAIR_ERC721.
Context {Base : Type}.
Variable _safeMint : State Base → address → uint → Result (State Base).
Local Open Scope Z_scope.

Lemma mint_Success (s s' : State Base) msg to collectionID events :
  mint _safeMint msg to collectionID s = Success (s', events) →
  msg_value msg = 0
  ∧ hasRole s MINTER (msg_sender msg) = true
  ∧ ∃ c s1 c1,
      collection_at s collectionID = Success c
      ∧ 0 < mintableTokens c ≤ endingToken c
      ∧ _safeMint s to (endingToken c - mintableTokens c) = Success s1
      ∧ collection_at s1 collectionID = Success c1
      ∧ 1 ≤ mintableTokens c1 ≤ endingToken c1
      ∧ s' = set_collection
               (set_tokenToCollection s1 (endingToken c1 - mintableTokens c1)
                  collectionID)
               collectionID (after_mint c1)
      ∧ events
        = (if (0 <? enableResaleAt c1) && (enableResaleAt (after_mint c1) =? 0)
           then [TransfersEnabled collectionID (name c1)] else [])
          ++ (if mintableTokens c1 - 1 =? 0
              then [CollectionCompleted collectionID (name c1)] else []).
Proof.
  unfold mint, Result_bind, checked_sub.
  destruct (msg_value msg =? 0) eqn:Hvalue; simpl; [|done].
  apply Z.eqb_eq in Hvalue.
  destruct (hasRole s MINTER (msg_sender msg)); simpl; [|done].
  destruct (collection_at s collectionID) as [c| |] eqn:Hc; [|done..].
  destruct (0 <? mintableTokens c) eqn:Hleft; simpl; [|done].
  apply Z.ltb_lt in Hleft.
  destruct (mintableTokens c <=? endingToken c) eqn:Hsub; [|done].
  apply Z.leb_le in Hsub.
  destruct (_safeMint s to (endingToken c - mintableTokens c)) as [s1| |] eqn:Hs1;
    [|done..].
  destruct (collection_at s1 collectionID) as [c1| |] eqn:Hc1; [|done..].
  destruct (mintableTokens c1 <=? endingToken c1) eqn:Hsub1; [|done].
  apply Z.leb_le in Hsub1.
  destruct (1 <=? mintableTokens c1) eqn:Hone; [|done].
  apply Z.leb_le in Hone.
  intros [= <- <-]. split; [done|]. split; [done|].
  exists c, s1, c1. by repeat split.
Qed.


Lemma no_reentry_collection_at (s s1 : State Base) to token index :
  no_reentry _safeMint →
  _safeMint s to token = Success s1 →
  collection_at s1 index = collection_at s index
  ∧ tokenToCollection s1 = tokenToCollection s.
Proof.
  intros Hframe [Hc Ht]%Hframe. split; [|done].
  unfold collection_at. by rewrite Hc.
Qed.

(** X3: a [mint] that succeeds, the receiver not calling back, hands out
    the first token of the collection that is not minted yet,
    [endingToken - mintableTokens], records the collection for it, takes
    one off the tokens left to mint and one off the mints left before
    resale when there are any, and leaves the bounds of the collection,
    the other collections and the other tokens' records as they were.
    TransfersEnabled is emitted exactly by the mint that brings
    [enableResaleAt] from 1 to 0, CollectionCompleted exactly by the mint
    of the last token. *)
Theorem mint_hands_out_the_next_token
    (s s' : State Base) msg to collectionID events :
  no_reentry _safeMint →
  mint _safeMint msg to collectionID s = Success (s', events) →
  ∃ c,
    collection_at s collectionID = Success c
    ∧ 0 < mintableTokens c
    ∧ (∃ s1, _safeMint s to (endingToken c - mintableTokens c) = Success s1
             ∧ base s' = base s1)
    ∧ tokenToCollection s' !! (endingToken c - mintableTokens c)
      = Some collectionID
    ∧ collection_at s' collectionID = Success (after_mint c)
    ∧ (∀ index, index ≠ collectionID →
         collection_at s' index = collection_at s index)
    ∧ (∀ token, token ≠ endingToken c - mintableTokens c →
         tokenToCollection s' !! token = tokenToCollection s !! token)
    ∧ getCollectionCount s' = getCollectionCount s
    ∧ (TransfersEnabled collectionID (name c) ∈ events ↔ enableResaleAt c = 1)
    ∧ (CollectionCompleted collectionID (name c) ∈ events ↔ mintableTokens c = 1).
Proof.
  intros Hframe (_ & _ & c & s1 & c1 & Hc & [Hleft _] & Hs1 & Hc1 & _ & -> & ->)
    %mint_Success.
  destruct (no_reentry_collection_at _ _ _ _ collectionID Hframe Hs1) as [Hsame Ht].
  rewrite Hsame, Hc in Hc1. injection Hc1 as <-.
  assert (Hlen : length (_collections s1) = length (_collections s))
    by (by destruct (Hframe _ _ _ _ Hs1) as [-> _]).
  apply collection_at_Success in Hc as Hlookup. destruct Hlookup as [Hid Hlookup].
  exists c. split; [done|]. split; [done|]. split; [by exists s1|].
  split; [simpl; by rewrite lookup_insert_eq|].
  split.
  { apply collection_at_Success. split; [done|]. simpl.
    apply list_lookup_insert_eq. rewrite Hlen. by eapply lookup_lt_Some. }
  split.
  { intros index Hne.
    rewrite <- (proj1 (no_reentry_collection_at _ _ _ _ index Hframe Hs1)).
    unfold collection_at. simpl. destruct (index <? 0) eqn:Hneg; [done|].
    apply Z.ltb_ge in Hneg. rewrite list_lookup_insert_ne by lia. done. }
  split.
  { intros token Hne. simpl. rewrite lookup_insert_ne by done. by rewrite Ht. }
  split.
  { unfold getCollectionCount. simpl. by rewrite length_insert, Hlen. }
  unfold after_mint. simpl. split.
  - rewrite elem_of_app.
    destruct (0 <? enableResaleAt c) eqn:Hr; simpl.
    + apply Z.ltb_lt in Hr.
      destruct (enableResaleAt c - 1 =? 0) eqn:Hz.
      * apply Z.eqb_eq in Hz. split; [lia|]. intros _. left. by left.
      * apply Z.eqb_neq in Hz. split; [|lia].
        intros [Hin|Hin]; [by apply elem_of_nil in Hin|].
        destruct (mintableTokens c - 1 =? 0);
          [by apply list_elem_of_singleton in Hin | by apply elem_of_nil in Hin].
    + apply Z.ltb_ge in Hr. split; [|lia].
      intros [Hin|Hin]; [by apply elem_of_nil in Hin|].
      destruct (mintableTokens c - 1 =? 0);
        [by apply list_elem_of_singleton in Hin | by apply elem_of_nil in Hin].
  - rewrite elem_of_app.
    destruct (mintableTokens c - 1 =? 0) eqn:Hz.
    + apply Z.eqb_eq in Hz. split; [lia|]. intros _. right. by left.
    + apply Z.eqb_neq in Hz. split; [|lia].
      intros [Hin|Hin]; [|by apply elem_of_nil in Hin].
      destruct (andb _ _);
        [by apply list_elem_of_singleton in Hin | by apply elem_of_nil in Hin].
Qed.

(** X4: [mint] refuses a caller without the MINTER role, panics on an
    array index out of bounds for a collection that does not exist,
    reverts with the contract's message for a collection that has no token
    left, and fails the way [_safeMint] fails when it does. *)
Theorem mint_refusals (s : State Base) msg to collectionID :
  (hasRole s MINTER (msg_sender msg) = false →
   ∃ reason, mint _safeMint msg to collectionID s = Revert reason)
  ∧ (msg_value msg = 0 → hasRole s MINTER (msg_sender msg) = true →
     (¬ (0 ≤ collectionID < getCollectionCount s) →
      mint _safeMint msg to collectionID s = Panic 0x32)
     ∧ (∀ c, collection_at s collectionID = Success c →
          (mintableTokens c ≤ 0 →
           mint _safeMint msg to collectionID s
           = Revert "RAIR ERC721: Cannot mint tokens from this collection")
          ∧ (0 < mintableTokens c ≤ endingToken c →
             (∀ reason,
                _safeMint s to (endingToken c - mintableTokens c) = Revert reason →
                mint _safeMint msg to collectionID s = Revert reason)
             ∧ (∀ code,
                  _safeMint s to (endingToken c - mintableTokens c) = Panic code →
                  mint _safeMint msg to collectionID s = Panic code)))).
Proof.
  unfold mint, Result_bind, checked_sub. split.
  - intros ->. destruct (msg_value msg =? 0); simpl; eauto.
  - intros -> ->. simpl. split.
    + intros Hout. by rewrite collection_at_out_of_range.
    + intros c ->. split.
      * intros Hnone. apply Z.ltb_ge in Hnone. by rewrite Hnone.
      * intros [Hleft Hsub]. apply Z.ltb_lt in Hleft. apply Z.leb_le in Hsub.
        rewrite Hleft, Hsub. simpl. split; by intros ? ->.
Qed.

(** **** The invariant *)

Lemma mint_state (s s' : State Base) msg to collectionID events :
  no_reentry _safeMint →
  mint _safeMint msg to collectionID s = Success (s', events) →
  ∃ c,
    0 ≤ collectionID
    ∧ _collections s !! Z.to_nat collectionID = Some c
    ∧ 0 < mintableTokens c
    ∧ _collections s' = <[Z.to_nat collectionID := after_mint c]> (_collections s)
    ∧ tokenToCollection s'
      = <[endingToken c - mintableTokens c := collectionID]> (tokenToCollection s).
Proof.
  intros Hframe (_ & _ & c & s1 & c1 & Hc & [Hleft _] & Hs1 & Hc1 & _ & -> & _)
    %mint_Success.
  destruct (no_reentry_collection_at _ _ _ _ collectionID Hframe Hs1) as [Hsame Ht].
  rewrite Hsame, Hc in Hc1. injection Hc1 as <-.
  destruct (Hframe _ _ _ _ Hs1) as [Hl _].
  apply collection_at_Success in Hc as [Hid Hlookup].
  exists c. simpl. by rewrite Hl, Ht.
Qed.

Lemma contiguous_insert (l : list collection) : ∀ start i c c',
  contiguous start l →
  l !! i = Some c →
  startingToken c' = startingToken c →
  endingToken c' = endingToken c →
  contiguous start (<[i := c']> l).
Proof.
  induction l as [|p l IH]; intros start i c c' Hl Hi Hs He; [done|].
  destruct Hl as [Hp Hl]. destruct i as [|i]; simpl in *.
  - injection Hi as ->. split; [congruence|]. by rewrite He.
  - split; [done|]. by eapply IH.
Qed.

Lemma collection_ok_after_mint c :
  collection_ok c → 0 < mintableTokens c → collection_ok (after_mint c).
Proof.
  unfold collection_ok, after_mint. simpl. intros (? & ? & ? & ? & ?) ?.
  destruct (0 <? enableResaleAt c) eqn:Hr;
    [apply Z.ltb_lt in Hr | apply Z.ltb_ge in Hr]; lia.
Qed.

Lemma collection_ok_last (l : list collection) :
  Forall collection_ok l → 0 ≤ from_option endingToken 0 (last l).
Proof.
  intros Hl. destruct (last l) as [c|] eqn:Hlast; simpl; [|done].
  rewrite Forall_forall in Hl.
  destruct (Hl c) as (? & ? & ? & ? & ?); [|lia].
  apply last_Some in Hlast as [l' ->]. apply elem_of_app. right. by left.
Qed.

Lemma consistent_constructor _creatorAddress (inherited : Base) :
  consistent (constructor _creatorAddress inherited).
Proof.
  split; [done|]. split; [by constructor|].
  intros token index Hrec. simpl in Hrec. by rewrite lookup_empty in Hrec.
Qed.

Lemma consistent_createCollection (s s' : State Base) msg cname copies resaleAt events :
  consistent s →
  0 ≤ resaleAt →
  createCollection msg cname copies resaleAt s = Success (s', events) →
  consistent s'.
Proof.
  intros (Hcont & Hok & Hrec) Hresale
    (_ & _ & Hle & Hmax & ->)%createCollection_Success.
  split; [|split]; simpl.
  - by apply contiguous_snoc.
  - apply Forall_app. split; [done|]. apply Forall_singleton.
    assert (Hstart := collection_ok_last _ Hok).
    unfold collection_ok. simpl. lia.
  - intros token index Hin. destruct (Hrec token index Hin) as (c & Hc & Hrange).
    exists c. split; [|done].
    apply collection_at_Success in Hc as [Hindex Hc].
    apply collection_at_Success. split; [done|]. simpl.
    by apply lookup_app_l_Some.
Qed.

Lemma consistent_mint (s s' : State Base) msg to collectionID events :
  no_reentry _safeMint →
  consistent s →
  mint _safeMint msg to collectionID s = Success (s', events) →
  consistent s'.
Proof.
  intros Hframe (Hcont & Hok & Hrec) Hmint.
  destruct (mint_state _ _ _ _ _ _ Hframe Hmint)
    as (c & Hid & Hc & Hleft & Hl & Ht).
  assert (Hokc : collection_ok c).
  { rewrite Forall_forall in Hok. apply Hok. by eapply list_elem_of_lookup_2. }
  assert (Hc' : _collections s' !! Z.to_nat collectionID = Some (after_mint c)).
  { rewrite Hl. apply list_lookup_insert_eq. by eapply lookup_lt_Some. }
  split; [|split].
  - rewrite Hl. by eapply contiguous_insert.
  - rewrite Hl. apply Forall_insert; [done|]. by apply collection_ok_after_mint.
  - intros token index. rewrite Ht.
    destruct (decide (token = endingToken c - mintableTokens c)) as [->|Hne].
    + rewrite lookup_insert_eq. intros [= <-]. exists (after_mint c).
      split; [by apply collection_at_Success|].
      destruct Hokc as (? & ? & ? & ? & ?). simpl. lia.
    + rewrite lookup_insert_ne by done. intros Hin.
      destruct (Hrec token index Hin) as (c0 & Hc0 & Hrange).
      apply collection_at_Success in Hc0 as [Hindex Hc0].
      destruct (decide (index = collectionID)) as [->|Hother].
      * rewrite Hc in Hc0. injection Hc0 as <-. exists (after_mint c).
        split; [by apply collection_at_Success|]. simpl. lia.
      * exists c0. split; [|done]. apply collection_at_Success.
        split; [done|]. rewrite Hl, list_lookup_insert_ne by lia. done.
Qed.

Lemma reachable_invariant (s : State Base) :
  no_reentry _safeMint → reachable _safeMint s → consistent s.
Proof.
  intros Hframe Hs.
  induction Hs as [creator inherited
                  | s msg cname copies resaleAt s' events _ IH Hresale Hcreate
                  | s msg to collectionID s' events _ IH Hmint
                  | s s' _ IH Hl Ht].
  - apply consistent_constructor.
  - by eapply consistent_createCollection.
  - by eapply consistent_mint.
  - destruct IH as (Hcont & Hok & Hrec). unfold consistent. rewrite Hl.
    split; [done|]. split; [done|].
    intros token index. rewrite Ht. intros Hin.
    destruct (Hrec token index Hin) as (c & Hc & Hrange). exists c.
    split; [|done]. unfold collection_at in *. by rewrite Hl.
Qed.

(** **** Tokens and their collections *)

Lemma collection_ok_bounds c :
  collection_ok c →
  startingToken c ≤ endingToken c ∧ 0 ≤ mintableTokens c.
Proof. unfold collection_ok. lia. Qed.

Lemma contiguous_start_le (l : list collection) : ∀ start j cj,
  contiguous start l →
  Forall collection_ok l →
  l !! j = Some cj →
  start ≤ startingToken cj.
Proof.
  induction l as [|p l IH]; intros start j cj Hl Hok Hj; [done|].
  destruct Hl as [Hp Hl]. apply Forall_cons in Hok as [Hokp Hok].
  destruct j as [|j]; simpl in Hj.
  - injection Hj as <-. lia.
  - apply collection_ok_bounds in Hokp as [? _].
    specialize (IH _ _ _ Hl Hok Hj). lia.
Qed.

Lemma contiguous_ordered (l : list collection) : ∀ start i j ci cj,
  contiguous start l →
  Forall collection_ok l →
  (i < j)%nat →
  l !! i = Some ci →
  l !! j = Some cj →
  endingToken ci ≤ startingToken cj.
Proof.
  induction l as [|p l IH]; intros start i j ci cj Hl Hok Hlt Hi Hj; [done|].
  destruct Hl as [Hp Hl]. apply Forall_cons in Hok as [Hokp Hok].
  destruct j as [|j]; [lia|]. simpl in Hj. destruct i as [|i]; simpl in Hi.
  - injection Hi as <-. by eapply contiguous_start_le.
  - eapply (IH _ i j); [done..|lia|done|done].
Qed.

Lemma consistent_one_collection (s : State Base) token i j ci cj :
  consistent s →
  collection_at s i = Success ci →
  collection_at s j = Success cj →
  startingToken ci ≤ token < endingToken ci →
  startingToken cj ≤ token < endingToken cj →
  i = j.
Proof.
  intros (Hcont & Hok & _) [Hi Hci]%collection_at_Success
    [Hj Hcj]%collection_at_Success Hti Htj.
  destruct (Z.lt_trichotomy i j) as [Hlt|[Heq|Hgt]]; [|done|].
  - assert (endingToken ci ≤ startingToken cj); [|lia].
    eapply (contiguous_ordered _ _ (Z.to_nat i) (Z.to_nat j)); [done..|lia|done|done].
  - assert (endingToken cj ≤ startingToken ci); [|lia].
    eapply (contiguous_ordered _ _ (Z.to_nat j) (Z.to_nat i)); [done..|lia|done|done].
Qed.

Lemma consistent_collection_ok (s : State Base) index c :
  consistent s → collection_at s index = Success c → collection_ok c.
Proof.
  intros (_ & Hok & _) [_ Hc]%collection_at_Success.
  rewrite Forall_forall in Hok. apply Hok. by eapply list_elem_of_lookup_2.
Qed.

(** X5: in every state the contract reaches, the receivers of the mints
    not calling back, the collections follow one another from token 0,
    each has no more tokens left to mint than it spans and no more mints
    left before resale than tokens left, and every token on record lies
    among the minted tokens of the collection recorded for it. *)
Theorem reachable_consistent (s : State Base) :
  no_reentry _safeMint →
  reachable _safeMint s →
  contiguous 0 (_collections s)
  ∧ (∀ index c,
       collection_at s index = Success c →
       0 ≤ startingToken c
       ∧ 0 ≤ enableResaleAt c ≤ mintableTokens c
       ∧ mintableTokens c ≤ endingToken c - startingToken c
       ∧ endingToken c ≤ max_uint)
  ∧ (∀ token index,
       tokenToCollection s !! token = Some index →
       ∃ c, collection_at s index = Success c
            ∧ startingToken c ≤ token < endingToken c - mintableTokens c).
Proof.
  intros Hframe Hs. assert (Hcons := reachable_invariant s Hframe Hs).
  split; [apply Hcons|]. split; [|apply Hcons].
  intros index c Hc.
  destruct (consistent_collection_ok _ _ _ Hcons Hc) as (? & ? & ? & ? & ?).
  lia.
Qed.

(** X6: in every state the contract reaches, the receivers of the mints
    not calling back, no token lies between the bounds of two collections,
    and the token a [mint] hands out has no collection on record before
    that mint: a token id is given out once. *)
Theorem token_ids_are_given_out_once (s : State Base) :
  no_reentry _safeMint →
  reachable _safeMint s →
  (∀ token i j ci cj,
     collection_at s i = Success ci →
     collection_at s j = Success cj →
     startingToken ci ≤ token < endingToken ci →
     startingToken cj ≤ token < endingToken cj →
     i = j)
  ∧ (∀ msg to collectionID s' events c,
       mint _safeMint msg to collectionID s = Success (s', events) →
       collection_at s collectionID = Success c →
       tokenToCollection s !! (endingToken c - mintableTokens c) = None).
Proof.
  intros Hframe Hs. assert (Hcons := reachable_invariant s Hframe Hs).
  split; [intros token i j ci cj; by apply consistent_one_collection|].
  intros msg to collectionID s' events c Hmint Hc.
  destruct (mint_state _ _ _ _ _ _ Hframe Hmint) as (c0 & _ & Hc0 & Hleft & _).
  apply collection_at_Success in Hc as Hlookup. destruct Hlookup as [_ Hlookup].
  rewrite Hc0 in Hlookup. injection Hlookup as ->.
  destruct (tokenToCollection s !! (endingToken c - mintableTokens c))
    as [index|] eqn:Hrec; [|done].
  exfalso. destruct Hcons as (Hcont & Hok & Hrange).
  destruct (Hrange _ _ Hrec) as (c1 & Hc1 & Hin).
  assert (Hokc := consistent_collection_ok s _ _ (conj Hcont (conj Hok Hrange)) Hc).
  assert (Hokc1 := consistent_collection_ok s _ _ (conj Hcont (conj Hok Hrange)) Hc1).
  destruct Hokc as (? & ? & ? & ? & ?). destruct Hokc1 as (? & ? & ? & ? & ?).
  assert (index = collectionID) as ->.
  { apply (consistent_one_collection s (endingToken c - mintableTokens c)
             _ _ c1 c (conj Hcont (conj Hok Hrange)) Hc1 Hc); lia. }
  rewrite Hc in Hc1. injection Hc1 as <-. lia.
Qed.

(** X7: in every state the contract reaches, a collection with no token
    left to mint has its transfers enabled: the hook hands every transfer
    of a token recorded for it to the inherited hook. *)
Theorem sold_out_collections_transfer_freely
    (s : State Base) super_beforeTokenTransfer from to token c :
  no_reentry _safeMint →
  reachable _safeMint s →
  collection_at s (tokenToCollection_at s token) = Success c →
  mintableTokens c = 0 →
  enableResaleAt c = 0
  ∧ _beforeTokenTransfer super_beforeTokenTransfer from to token s
    = super__beforeTokenTransfer super_beforeTokenTransfer from to token s.
Proof.
  intros Hframe Hs Hc Hsold. assert (Hcons := reachable_invariant s Hframe Hs).
  destruct (consistent_collection_ok _ _ _ Hcons Hc) as (_ & ? & ? & _).
  assert (Hzero : enableResaleAt c = 0) by lia. split; [done|].
  unfold _beforeTokenTransfer. rewrite Hc, Hzero. simpl.
  by destruct (negb (from =? 0) && negb (to =? 0)).
Qed.

(** X8: [tokenToCollectionIndex] of a token on record is its rank among
    the minted tokens of its collection, below the number minted; for the
    token a [mint] has just handed out it is the number of tokens minted
    before it. For a token without record it reads the first collection:
    it panics when there is none and otherwise returns the token id. *)
Theorem tokenToCollectionIndex_is_the_rank (s : State Base) :
  no_reentry _safeMint →
  reachable _safeMint s →
  (∀ token index,
     tokenToCollection s !! token = Some index →
     ∃ c, collection_at s index = Success c
          ∧ tokenToCollectionIndex token s = Success (token - startingToken c)
          ∧ 0 ≤ token - startingToken c
              < endingToken c - startingToken c - mintableTokens c)
  ∧ (∀ msg to collectionID s' events c,
       mint _safeMint msg to collectionID s = Success (s', events) →
       collection_at s collectionID = Success c →
       tokenToCollectionIndex (endingToken c - mintableTokens c) s'
       = Success (endingToken c - startingToken c - mintableTokens c))
  ∧ (∀ token,
       tokenToCollection s !! token = None →
       0 ≤ token →
       (getCollectionCount s = 0 →
        tokenToCollectionIndex token s = Panic 0x32)
       ∧ (0 < getCollectionCount s →
          tokenToCollectionIndex token s = Success token)).
Proof.
  intros Hframe Hs.
  assert (Hrank : ∀ s : State Base, consistent s → ∀ token index,
            tokenToCollection s !! token = Some index →
            ∃ c, collection_at s index = Success c
                 ∧ tokenToCollectionIndex token s = Success (token - startingToken c)
                 ∧ 0 ≤ token - startingToken c
                     < endingToken c - startingToken c - mintableTokens c).
  { clear s Hs. intros s Hcons token index Hrec.
    destruct Hcons as (Hcont & Hok & Hrange).
    destruct (Hrange _ _ Hrec) as (c & Hc & Hin). exists c. split; [done|].
    unfold tokenToCollectionIndex, tokenToCollection_at, Result_bind, checked_sub.
    unfold uint in *. rewrite Hrec. simpl. rewrite Hc.
    destruct (startingToken c <=? token) eqn:Hle;
      [|apply Z.leb_gt in Hle; lia].
    split; [done|lia]. }
  assert (Hcons := reachable_invariant s Hframe Hs).
  split; [by apply Hrank|]. split.
  - intros msg to collectionID s' events c Hmint Hc.
    assert (Hcons' := consistent_mint _ _ _ _ _ _ Hframe Hcons Hmint).
    destruct (mint_state _ _ _ _ _ _ Hframe Hmint)
      as (c0 & Hid & Hc0 & Hleft & Hl & Ht).
    apply collection_at_Success in Hc as Hlookup. destruct Hlookup as [_ Hlookup].
    rewrite Hc0 in Hlookup. injection Hlookup as ->.
    destruct (Hrank s' Hcons' (endingToken c - mintableTokens c) collectionID)
      as (c' & Hc' & -> & _); [by rewrite Ht, lookup_insert_eq|].
    apply collection_at_Success in Hc' as [_ Hc'].
    rewrite Hl, list_lookup_insert_eq in Hc' by (by eapply lookup_lt_Some).
    injection Hc' as <-. simpl. f_equal. lia.
  - intros token Hnone Htoken.
    unfold tokenToCollectionIndex, tokenToCollection_at, Result_bind.
    unfold uint in *. rewrite Hnone. simpl. split.
    + intros Hcount. rewrite collection_at_out_of_range; [done|lia].
    + intros Hcount. destruct (collection_at_in_range s 0) as [c Hc]; [lia|].
      rewrite Hc. apply collection_at_Success in Hc as [_ Hc].
      destruct Hcons as (Hcont & _).
      destruct (_collections s) as [|p l]; [done|].
      injection Hc as ->. destruct Hcont as [Hstart _].
      unfold checked_sub. rewrite Hstart.
      destruct (0 <=? token) eqn:Hle; [|apply Z.leb_gt in Hle; lia].
      f_equal. lia.
Qed.

(** **** Counting the mints of a collection *)

Lemma mints_of_collection collectionID n (s s' : State Base) :
  mints_of _safeMint collectionID n s s' →
  no_reentry _safeMint →
  consistent s →
  ∀ c, collection_at s collectionID = Success c →
  ∃ c', collection_at s' collectionID = Success c'
        ∧ startingToken c' = startingToken c
        ∧ endingToken c' = endingToken c
        ∧ mintableTokens c' = mintableTokens c - Z.of_nat n
        ∧ enableResaleAt c' = Z.max 0 (enableResaleAt c - Z.of_nat n)
        ∧ consistent s'.
Proof.
  intros Hrun Hframe.
  induction Hrun as [s
                    | n s msg to s1 events s2 Hmint _ IH
                    | n s msg to other s1 events s2 Hother Hmint _ IH
                    | n s msg cname copies resaleAt s1 events s2 Hresale Hcreate _ IH
                    | n s s1 s2 Hl Ht _ IH];
    intros Hcons c Hc.
  - exists c. destruct (consistent_collection_ok _ _ _ Hcons Hc) as (? & ? & ?).
    split; [done|]. split; [done|]. split; [done|]. split; [lia|].
    split; [lia|done].
  - assert (Hcons1 := consistent_mint _ _ _ _ _ _ Hframe Hcons Hmint).
    destruct (mint_state _ _ _ _ _ _ Hframe Hmint)
      as (c0 & Hid & Hc0 & Hleft & Hl & _).
    apply collection_at_Success in Hc as Hlookup. destruct Hlookup as [_ Hlookup].
    rewrite Hc0 in Hlookup. injection Hlookup as ->.
    destruct (IH Hcons1 (after_mint c)) as (c' & Hc' & Hs & He & Hm & Hr & Hcons2).
    { apply collection_at_Success. split; [done|]. rewrite Hl.
      apply list_lookup_insert_eq. by eapply lookup_lt_Some. }
    exists c'. destruct (consistent_collection_ok _ _ _ Hcons Hc) as (? & ? & ?).
    simpl in *. split; [done|]. split; [done|]. split; [done|].
    split; [lia|]. split; [|done].
    rewrite Hr. destruct (0 <? enableResaleAt c) eqn:Hpos;
      [apply Z.ltb_lt in Hpos | apply Z.ltb_ge in Hpos]; lia.
  - assert (Hcons1 := consistent_mint _ _ _ _ _ _ Hframe Hcons Hmint).
    destruct (mint_state _ _ _ _ _ _ Hframe Hmint)
      as (c0 & Hid & Hc0 & Hleft & Hl & _).
    apply (IH Hcons1 c).
    apply collection_at_Success in Hc as [Hpos Hc].
    apply collection_at_Success. split; [done|].
    rewrite Hl, list_lookup_insert_ne by lia. done.
  - assert (Hcons1 := consistent_createCollection _ _ _ _ _ _ _ Hcons Hresale Hcreate).
    apply createCollection_Success in Hcreate as (_ & _ & _ & _ & ->).
    apply (IH Hcons1 c).
    apply collection_at_Success in Hc as [Hpos Hc].
    apply collection_at_Success. split; [done|]. simpl.
    by apply lookup_app_l_Some.
  - apply IH.
    + destruct Hcons as (Hcont & Hok & Hrec). unfold consistent. rewrite Hl.
      split; [done|]. split; [done|].
      intros token index. rewrite Ht. intros Hin.
      destruct (Hrec token index Hin) as (c0 & Hc0 & Hrange). exists c0.
      split; [|done]. unfold collection_at in *. by rewrite Hl.
    + unfold collection_at in *. by rewrite Hl.
Qed.

(** X9: after [n] mints out of a collection, among other calls, the
    collection has [n] tokens less to mint (so [n] is at most what it
    had) and [n] mints less before resale, down to 0. A transfer of a
    token recorded for it between two nonzero addresses is refused as
    long as [n] is below the [enableResaleAt] the collection started
    with, and handed to the inherited hook from then on. *)
Theorem transfers_open_after_enough_mints
    (s s' : State Base) collectionID n c :
  no_reentry _safeMint →
  reachable _safeMint s →
  collection_at s collectionID = Success c →
  mints_of _safeMint collectionID n s s' →
  Z.of_nat n ≤ mintableTokens c
  ∧ (∃ c', collection_at s' collectionID = Success c'
           ∧ mintableTokens c' = mintableTokens c - Z.of_nat n
           ∧ enableResaleAt c' = Z.max 0 (enableResaleAt c - Z.of_nat n))
  ∧ ∀ super_beforeTokenTransfer from to token,
      tokenToCollection_at s' token = collectionID →
      from ≠ 0 → to ≠ 0 →
      (Z.of_nat n < enableResaleAt c →
       _beforeTokenTransfer super_beforeTokenTransfer from to token s'
       = Revert "RAIR ERC721: Transfers for this collection haven't been enabled")
      ∧ (enableResaleAt c ≤ Z.of_nat n →
         _beforeTokenTransfer super_beforeTokenTransfer from to token s'
         = super__beforeTokenTransfer super_beforeTokenTransfer from to token s').
Proof.
  intros Hframe Hs Hc Hrun.
  assert (Hcons := reachable_invariant s Hframe Hs).
  destruct (mints_of_collection _ _ _ _ Hrun Hframe Hcons c Hc)
    as (c' & Hc' & _ & _ & Hm & Hr & Hcons').
  destruct (consistent_collection_ok _ _ _ Hcons' Hc') as (_ & ? & ? & _).
  split; [lia|]. split; [by exists c'|].
  intros super from to token Htoken Hfrom%Z.eqb_neq Hto%Z.eqb_neq.
  unfold _beforeTokenTransfer. rewrite Hfrom, Hto, Htoken, Hc'. simpl. split.
  - intros Hlt. destruct (enableResaleAt c' =? 0) eqn:Hz; [|done].
    apply Z.eqb_eq in Hz. lia.
  - intros Hge. destruct (enableResaleAt c' =? 0) eqn:Hz; [done|].
    apply Z.eqb_neq in Hz. lia.
Qed.

End MintFacts.

Section RoyaltyFacts.
Import RAIR_ERC721.
Context {Base : Type}.
Variable getRoleMember : Base → Role → uint → Result address.
Local Open Scope Z_scope.

Lemma from_big_endian_snoc bytes b :
  from_big_endian (bytes ++ [b]) = 256 * from_big_endian bytes + b.
Proof. unfold from_big_endian. by rewrite foldl_snoc. Qed.

Lemma big_endian_length n v : length (big_endian n v) = n.
Proof.
  revert v. induction n as [|n IH]; intros v; [done|].
  simpl. rewrite length_app, IH. simpl. lia.
Qed.

Lemma from_big_endian_big_endian n v :
  from_big_endian (big_endian n v) = v mod 256 ^ Z.of_nat n.
Proof.
  revert v. induction n as [|n IH]; intros v.
  - simpl. by rewrite Z.mod_1_r.
  - simpl big_endian. rewrite from_big_endian_snoc, IH.
    rewrite Nat2Z.inj_succ, Z.pow_succ_r by lia.
    rewrite (Z.rem_mul_r v 256 (256 ^ Z.of_nat n)) by lia. lia.
Qed.

(** X10: [royaltyInfo] names the first CREATOR as the receiver and the
    sale price times the fee, in hundred-thousandths, rounded down, as the
    royalty; the fee being a [uint16], the royalty never exceeds the
    price. The third result is the token id on 32 bytes, the most
    significant first. The call panics when price times fee does not fit
    in a [uint], and fails as [getRoleMember] does, with its revert reason
    or with its panic code, when no CREATOR is left. *)
Theorem royaltyInfo_bounded
    (s : State Base) _royaltyFee _tokenId _value _data :
  0 ≤ _value →
  0 ≤ _royaltyFee ≤ 65535 →
  0 ≤ _tokenId ≤ max_uint →
  (∀ receiver,
     getRoleMember (base s) CREATOR 0 = Success receiver →
     (_value * _royaltyFee ≤ max_uint →
      ∃ amount payload,
        royaltyInfo getRoleMember _royaltyFee _tokenId _value _data s
        = Success (receiver, amount, payload)
        ∧ amount = _value * _royaltyFee / 100000
        ∧ 0 ≤ amount ≤ _value
        ∧ length payload = 32%nat
        ∧ from_big_endian payload = _tokenId)
     ∧ (max_uint < _value * _royaltyFee →
        royaltyInfo getRoleMember _royaltyFee _tokenId _value _data s
        = Panic 0x11))
  ∧ (∀ reason,
       getRoleMember (base s) CREATOR 0 = Revert reason →
       royaltyInfo getRoleMember _royaltyFee _tokenId _value _data s
       = Revert reason)
  ∧ (∀ code,
       getRoleMember (base s) CREATOR 0 = Panic code →
       royaltyInfo getRoleMember _royaltyFee _tokenId _value _data s
       = Panic code).
Proof.
  intros Hvalue Hfee Htoken. unfold royaltyInfo, Result_bind, checked_mul. split.
  - intros receiver ->. split.
    + intros Hfit. apply Z.leb_le in Hfit. rewrite Hfit.
      eexists _, _. split; [done|]. split; [done|]. split; [|split].
      * split; [apply Z.div_pos; nia|].
        apply Z.div_le_upper_bound; [lia|nia].
      * apply big_endian_length.
      * unfold encodePacked. rewrite from_big_endian_big_endian.
        apply Z.mod_small. unfold max_uint in Htoken.
        change (256 ^ Z.of_nat 32) with (2 ^ 256). lia.
    + intros Hover. apply Z.leb_gt in Hover. by rewrite Hover.
  - split; [by intros reason ->|by intros code ->].
Qed.

End RoyaltyFacts.

Section OwnershipFacts.
Import RAIR_ERC721.
Context {Base : Type}.
Variable balanceOf : Base → address → Result uint.
Variable tokenOfOwnerByIndex : Base → address → uint → Result uint.
Local Open Scope Z_scope.



End OwnershipFacts.

(** * More properties of the event registry *)

Section RegistryReadings.
Context `{utils.Ethers}.

Lemma entry_for_operation abi d sig e :
  entry_for abi d sig = Some e →
  operation e = insertionMapping_at (split_head "(" sig).
Proof.
  intros (item & Hhead & ->)%entry_for_Some. simpl.
  destruct (head_filter_Some _ _ _ Hhead) as (_ & _ & _ & -> & _). done.
Qed.

(** X12: the handler of an entry of the registry is what the property
    access [insertionMapping[name]] returns for the name of its event, the
    text of the signature before the parenthesis: the handler that
    [insertionMapping] binds to the name; for a name it does not bind, the
    member of [Object.prototype] of that name when there is one, and
    nothing otherwise. So two entries for events of one name carry the
    same handler, whatever ABI and generation they come from. *)
Theorem handler_follows_the_event_name c r :
  value_of (masterMapping c) = Some r →
  (∀ k e, r !! k = Some e →
     operation e = insertionMapping_at (split_head "(" (signature e))
     ∧ (∀ handler,
          insertionMapping !! split_head "(" (signature e) = Some handler →
          operation e = Some handler)
     ∧ (insertionMapping !! split_head "(" (signature e) = None →
        split_head "(" (signature e) ∈ Object_prototype →
        operation e = Some (ObjectPrototype (split_head "(" (signature e))))
     ∧ (insertionMapping !! split_head "(" (signature e) = None →
        split_head "(" (signature e) ∉ Object_prototype →
        operation e = None))
  ∧ (∀ k1 k2 e1 e2,
       r !! k1 = Some e1 → r !! k2 = Some e2 →
       split_head "(" (signature e1) = split_head "(" (signature e2) →
       operation e1 = operation e2).
Proof.
  intros Hr.
  assert (Hop : ∀ k e, r !! k = Some e →
            operation e = insertionMapping_at (split_head "(" (signature e))).
  { intros k e Hk.
    destruct (master_origin _ _ _ _ Hr Hk) as (x & sig & _ & _ & _ & He).
    apply entry_for_signature in He as Hsig. destruct Hsig as [-> _].
    by eapply entry_for_operation. }
  split.
  - intros k e Hk. rewrite (Hop _ _ Hk). split; [done|]. split; [|split].
    + apply insertionMapping_at_own.
    + intros Hnone Hin. rewrite insertionMapping_at_inherited by done.
      by rewrite decide_True.
    + intros Hnone Hin. rewrite insertionMapping_at_inherited by done.
      by rewrite decide_False.
  - intros k1 k2 e1 e2 H1 H2 Hname.
    by rewrite (Hop _ _ H1), (Hop _ _ H2), Hname.
Qed.

(** X13: the identifiers of the registry are exactly the hashes of the
    event signatures of the ABIs of the corpus for which an entry of the
    ABI carries the event's name. *)
Theorem registry_identifiers c r k :
  value_of (masterMapping c) = Some r →
  k ∈ dom r ↔
  ∃ x sig, x ∈ corpus c
           ∧ sig ∈ event_signatures x.1
           ∧ matching_items x.1 sig ≠ []
           ∧ k = utils.id sig.
Proof.
  intros Hr. rewrite elem_of_dom. split.
  - intros [e Hk].
    destruct (master_origin _ _ _ _ Hr Hk) as (x & sig & Hx & Hsig & -> & He).
    exists x, sig. by apply entry_for_signature in He as [_ ?].
  - intros (x & sig & Hx & Hsig & Hm & ->).
    apply masterMapping_value in Hr as [_ ->].
    apply (merged_is_Some _ x); [done|].
    apply registered_is_Some; [done|]. unfold entry_for.
    destruct (matching_items x.1 sig); [done|]. simpl. eauto.
Qed.

(** X14: in the mapping of one ABI, two entries for events of one name
    hold the same fragment, the first entry of the ABI with that name,
    and the same handler: an event declared a second time under a name,
    with other parameters, is registered with the fragment of the first
    declaration. *)
Theorem same_name_same_fragment abi0 d m k1 k2 e1 e2 :
  value_of (getContractEvents abi0 d) = Some m →
  m !! k1 = Some e1 →
  m !! k2 = Some e2 →
  split_head "(" (signature e1) = split_head "(" (signature e2) →
  abi e1 = abi e2 ∧ operation e1 = operation e2.
Proof.
  intros [_ ->]%getContractEvents_value
    (sig1 & _ & _ & He1)%registered_origin
    (sig2 & _ & _ & He2)%registered_origin.
  apply entry_for_Some in He1 as (item1 & Hhead1 & ->).
  apply entry_for_Some in He2 as (item2 & Hhead2 & ->). simpl.
  intros Hname. unfold matching_items in *. rewrite Hname in Hhead1.
  rewrite Hhead1 in Hhead2. by injection Hhead2 as ->.
Qed.

(** X15: the construction of the registry throws exactly when the library
    refuses one of the nine ABIs; nothing else stops it. *)
Theorem construction_aborts_on_a_refused_abi c :
  value_of (masterMapping c) = None ↔
  ∃ x, x ∈ corpus c ∧ utils.Interface x.1 = None.
Proof.
  split.
  - intros Hnone. destruct (decide (well_formed c)) as [Hwf|Hwf].
    + assert (Hr := proj2 (masterMapping_value c _) (conj Hwf eq_refl)).
      congruence.
    + apply not_Forall_Exists in Hwf; [|apply _].
      apply Exists_exists in Hwf as (x & Hx & Hi). exists x. split; [done|].
      by apply eq_None_not_Some.
  - intros (x & Hx & Hi).
    destruct (value_of (masterMapping c)) as [r|] eqn:Hr; [|done].
    apply masterMapping_value in Hr as [Hwf _].
    unfold well_formed in Hwf. rewrite Forall_forall in Hwf.
    specialize (Hwf x Hx). rewrite Hi in Hwf. by destruct Hwf.
Qed.

(** X16: when the registry is built, the lines the construction adds to
    the console are exactly the lines [Couldn't find ABI for signature
    ...] of the event signatures whose name no entry of their ABI
    carries; when every signature has its entry the console is left as it
    was. *)
Theorem console_reports_the_missing_fragments c con con' r :
  masterMapping c con = (con', Normal r) →
  (∀ line,
     line ∈ con' ↔
     line ∈ con
     ∨ ∃ x sig, x ∈ corpus c
                ∧ sig ∈ event_signatures x.1
                ∧ matching_items x.1 sig = []
                ∧ line = "Couldn't find ABI for signature " +:+ sig)
  ∧ ((∀ x sig, x ∈ corpus c → sig ∈ event_signatures x.1 →
               matching_items x.1 sig ≠ []) →
     con' = con).
Proof.
  intros Hrun.
  assert (Hwf : well_formed c).
  { destruct (decide (well_formed c)) as [Hwf|Hwf]; [done|].
    assert (Ht := masterMapping_Throw c con Hwf). by rewrite Hrun in Ht. }
  set (lines := corpus c ≫= λ x, missing_lines x.1 (event_signatures x.1)).
  assert (Hcon : con' = con ++ lines).
  { rewrite masterMapping_Normal in Hrun by done. by injection Hrun as <- _. }
  assert (Hlines : ∀ line,
            line ∈ lines ↔
            ∃ x sig, x ∈ corpus c ∧ sig ∈ event_signatures x.1
                     ∧ matching_items x.1 sig = []
                     ∧ line = "Couldn't find ABI for signature " +:+ sig).
  { intros line. split.
    - intros (x & Hline & Hx)%list_elem_of_bind. unfold missing_lines in Hline.
      apply list_elem_of_fmap in Hline as (sig & -> & Hsig).
      apply list_elem_of_filter in Hsig as [Hm Hsig]. by exists x, sig.
    - intros (x & sig & Hx & Hsig & Hm & ->). apply list_elem_of_bind.
      exists x. split; [|done]. by apply missing_line_logged. }
  split.
  - intros line. by rewrite Hcon, elem_of_app, Hlines.
  - intros Hall. rewrite Hcon.
    assert (lines = []) as ->; [|by rewrite app_nil_r].
    apply elem_of_nil_inv. intros line (x & sig & Hx & Hsig & Hm & _)%Hlines.
    by apply (Hall x sig).
Qed.

End RegistryReadings.

(** ** The theorems at work on the example mints *)

Lemma safeMint_no_reentry : RAIR_ERC721.no_reentry MintExamples.safeMint.
Proof.
  intros s to token s'. unfold MintExamples.safeMint.
  destruct (to =? 0)%Z; [done|]. by intros [= <-].
Qed.

(** The receiver that sends its token on calls neither [createCollection]
    nor [mint]: it leaves the collections and the record as they are. *)
Lemma safeMint_forwarding_no_reentry :
  RAIR_ERC721.no_reentry MintExamples.safeMint_forwarding.
Proof.
  intros s to token s'. unfold MintExamples.safeMint_forwarding.
  destruct (to =? 0)%Z; [done|].
  destruct (to =? MintExamples.forwarder)%Z; [|apply safeMint_no_reentry].
  unfold RAIR_ERC721._beforeTokenTransfer,
    RAIR_ERC721.super__beforeTokenTransfer, MintExamples.accept. simpl.
  destruct (RAIR_ERC721.collection_at _ _) as [c| |]; [|done..].
  destruct (RAIR_ERC721.enableResaleAt c =? 0)%Z; [|done].
  by intros [= <-].
Qed.

Lemma created_step :
  RAIR_ERC721.createCollection ContractExamples.from_creator "First" 3 2
    MintExamples.deployed
  = RAIR_ERC721.Success
      (MintExamples.created, [RAIR_ERC721.CollectionCreated 0 "First" 3]).
Proof. vm_compute. reflexivity. Qed.

Lemma minted_once_step :
  RAIR_ERC721.mint MintExamples.safeMint ContractExamples.from_creator
    ContractExamples.collector 0 MintExamples.created
  = RAIR_ERC721.Success (MintExamples.minted_once, []).
Proof. vm_compute. reflexivity. Qed.

Lemma minted_twice_step :
  RAIR_ERC721.mint MintExamples.safeMint ContractExamples.from_creator
    ContractExamples.collector 0 MintExamples.minted_once
  = RAIR_ERC721.Success
      (MintExamples.minted_twice, [RAIR_ERC721.TransfersEnabled 0 "First"]).
Proof. vm_compute. reflexivity. Qed.

Lemma sold_out_step :
  RAIR_ERC721.mint MintExamples.safeMint ContractExamples.from_creator
    ContractExamples.collector 0 MintExamples.minted_twice
  = RAIR_ERC721.Success
      (MintExamples.sold_out, [RAIR_ERC721.CollectionCompleted 0 "First"]).
Proof. vm_compute. reflexivity. Qed.

Lemma created_reachable :
  RAIR_ERC721.reachable MintExamples.safeMint MintExamples.created.
Proof.
  eapply RAIR_ERC721.reachable_createCollection;
    [apply RAIR_ERC721.reachable_constructor | | apply created_step]. done.
Qed.

Lemma minted_once_reachable :
  RAIR_ERC721.reachable MintExamples.safeMint MintExamples.minted_once.
Proof.
  eapply RAIR_ERC721.reachable_mint;
    [apply created_reachable | apply minted_once_step].
Qed.

Lemma sold_out_reachable :
  RAIR_ERC721.reachable MintExamples.safeMint MintExamples.sold_out.
Proof.
  eapply RAIR_ERC721.reachable_mint; [|apply sold_out_step].
  eapply RAIR_ERC721.reachable_mint;
    [apply minted_once_reachable | apply minted_twice_step].
Qed.

(** X1 on the contract with two collections: index 1 is listed, index 2
    is out of bounds. *)
Lemma getCollection_lists_the_collections_witness :
  (∃ c, RAIR_ERC721._collections ContractExamples.two_collections !! Z.to_nat 1
        = Some c
        ∧ RAIR_ERC721.getCollection 1 ContractExamples.two_collections
          = RAIR_ERC721.Success
              (RAIR_ERC721.startingToken c, RAIR_ERC721.endingToken c,
               RAIR_ERC721.mintableTokens c, RAIR_ERC721.name c))
  ∧ RAIR_ERC721.getCollection 2 ContractExamples.two_collections
    = RAIR_ERC721.Panic 0x32.
Proof.
  split.
  - apply (proj1 (getCollection_lists_the_collections
                    ContractExamples.two_collections 1%Z)).
    unfold RAIR_ERC721.getCollectionCount. simpl. lia.
  - apply (proj2 (getCollection_lists_the_collections
                    ContractExamples.two_collections 2%Z)).
    unfold RAIR_ERC721.getCollectionCount. simpl. lia.
Defined.

(** X2 on the second collection of the example contract. *)
Lemma createCollection_then_getCollection_witness :
  [RAIR_ERC721.CollectionCreated 1 "Second" 5;
   RAIR_ERC721.TransfersEnabled 1 "Second"]
  = RAIR_ERC721.CollectionCreated
      (RAIR_ERC721.getCollectionCount ContractExamples.locked) "Second" 5
    :: (if (0 =? 0)%Z
        then [RAIR_ERC721.TransfersEnabled
                (RAIR_ERC721.getCollectionCount ContractExamples.locked) "Second"]
        else [])
  ∧ RAIR_ERC721.getCollectionCount ContractExamples.two_collections
    = (RAIR_ERC721.getCollectionCount ContractExamples.locked + 1)%Z
  ∧ RAIR_ERC721.getCollection
      (RAIR_ERC721.getCollectionCount ContractExamples.locked)
      ContractExamples.two_collections
    = RAIR_ERC721.Success
        (from_option RAIR_ERC721.endingToken 0%Z
           (last (RAIR_ERC721._collections ContractExamples.locked)),
         (from_option RAIR_ERC721.endingToken 0
            (last (RAIR_ERC721._collections ContractExamples.locked)) + 5)%Z,
         5%Z, "Second")
  ∧ ∀ i, (0 ≤ i < RAIR_ERC721.getCollectionCount ContractExamples.locked)%Z →
         RAIR_ERC721.getCollection i ContractExamples.two_collections
         = RAIR_ERC721.getCollection i ContractExamples.locked.
Proof.
  apply (createCollection_then_getCollection ContractExamples.locked
           ContractExamples.two_collections ContractExamples.from_creator
           "Second" 5%Z 0%Z).
  vm_compute. reflexivity.
Defined.

(** X3 on the first mint of the example collection: token 0. *)
Lemma mint_hands_out_the_next_token_witness :
  ∃ c,
    RAIR_ERC721.collection_at MintExamples.created 0 = RAIR_ERC721.Success c
    ∧ (0 < RAIR_ERC721.mintableTokens c)%Z
    ∧ (∃ s1, MintExamples.safeMint MintExamples.created ContractExamples.collector
               (RAIR_ERC721.endingToken c - RAIR_ERC721.mintableTokens c)
             = RAIR_ERC721.Success s1
             ∧ RAIR_ERC721.base MintExamples.minted_once = RAIR_ERC721.base s1)
    ∧ RAIR_ERC721.tokenToCollection MintExamples.minted_once
        !! (RAIR_ERC721.endingToken c - RAIR_ERC721.mintableTokens c)%Z
      = Some 0%Z
    ∧ RAIR_ERC721.collection_at MintExamples.minted_once 0
      = RAIR_ERC721.Success (RAIR_ERC721.after_mint c)
    ∧ (∀ index, index ≠ 0%Z →
         RAIR_ERC721.collection_at MintExamples.minted_once index
         = RAIR_ERC721.collection_at MintExamples.created index)
    ∧ (∀ token,
         token ≠ (RAIR_ERC721.endingToken c - RAIR_ERC721.mintableTokens c)%Z →
         RAIR_ERC721.tokenToCollection MintExamples.minted_once !! token
         = RAIR_ERC721.tokenToCollection MintExamples.created !! token)
    ∧ RAIR_ERC721.getCollectionCount MintExamples.minted_once
      = RAIR_ERC721.getCollectionCount MintExamples.created
    ∧ (RAIR_ERC721.TransfersEnabled 0 (RAIR_ERC721.name c) ∈ []
       ↔ RAIR_ERC721.enableResaleAt c = 1%Z)
    ∧ (RAIR_ERC721.CollectionCompleted 0 (RAIR_ERC721.name c) ∈ []
       ↔ RAIR_ERC721.mintableTokens c = 1%Z).
Proof.
  apply (mint_hands_out_the_next_token MintExamples.safeMint
           MintExamples.created MintExamples.minted_once
           ContractExamples.from_creator ContractExamples.collector 0%Z []).
  - apply safeMint_no_reentry.
  - apply minted_once_step.
Defined.

(** X4 on the example collection: a collector cannot mint, collection 5
    does not exist, the collection sold out gives no token, and a mint to
    the zero address fails as [_safeMint] does. *)
Lemma mint_refusals_witness :
  (∃ reason,
     RAIR_ERC721.mint MintExamples.safeMint MintExamples.from_collector
       ContractExamples.collector 0 MintExamples.created
     = RAIR_ERC721.Revert reason)
  ∧ RAIR_ERC721.mint MintExamples.safeMint ContractExamples.from_creator
      ContractExamples.collector 5 MintExamples.created
    = RAIR_ERC721.Panic 0x32
  ∧ RAIR_ERC721.mint MintExamples.safeMint ContractExamples.from_creator
      ContractExamples.collector 0 MintExamples.sold_out
    = RAIR_ERC721.Revert "RAIR ERC721: Cannot mint tokens from this collection"
  ∧ RAIR_ERC721.mint MintExamples.safeMint ContractExamples.from_creator
      0 0 MintExamples.created
    = RAIR_ERC721.Revert "ERC721: mint to the zero address".
Proof.
  split; [|split; [|split]].
  - apply (proj1 (mint_refusals MintExamples.safeMint MintExamples.created
                    MintExamples.from_collector ContractExamples.collector 0%Z)).
    reflexivity.
  - apply (proj1 (proj2 (mint_refusals MintExamples.safeMint MintExamples.created
                           ContractExamples.from_creator
                           ContractExamples.collector 5%Z)
                    eq_refl eq_refl)).
    unfold RAIR_ERC721.getCollectionCount. simpl. lia.
  - apply (proj1 (proj2 (proj2 (mint_refusals MintExamples.safeMint
                                  MintExamples.sold_out
                                  ContractExamples.from_creator
                                  ContractExamples.collector 0%Z)
                           eq_refl eq_refl)
                    (MintExamples.first 0 0) eq_refl)).
    unfold RAIR_ERC721.getCollectionCount. simpl. lia.
  - apply (proj1 (proj2 (proj2 (proj2 (mint_refusals MintExamples.safeMint
                                         MintExamples.created
                                         ContractExamples.from_creator
                                         0%Z 0%Z)
                                  eq_refl eq_refl)
                           (MintExamples.first 3 2) eq_refl)
                    ltac:(simpl; lia))).
    reflexivity.
Defined.

(** X5 on the example collection after one mint. *)
Lemma reachable_consistent_witness :
  RAIR_ERC721.contiguous 0 (RAIR_ERC721._collections MintExamples.minted_once)
  ∧ (∀ index c,
       RAIR_ERC721.collection_at MintExamples.minted_once index
       = RAIR_ERC721.Success c →
       (0 ≤ RAIR_ERC721.startingToken c
        ∧ 0 ≤ RAIR_ERC721.enableResaleAt c ≤ RAIR_ERC721.mintableTokens c
        ∧ RAIR_ERC721.mintableTokens c
          ≤ RAIR_ERC721.endingToken c - RAIR_ERC721.startingToken c
        ∧ RAIR_ERC721.endingToken c ≤ RAIR_ERC721.max_uint)%Z)
  ∧ (∀ token index,
       RAIR_ERC721.tokenToCollection MintExamples.minted_once !! token
       = Some index →
       ∃ c, RAIR_ERC721.collection_at MintExamples.minted_once index
            = RAIR_ERC721.Success c
            ∧ (RAIR_ERC721.startingToken c ≤ token
               < RAIR_ERC721.endingToken c - RAIR_ERC721.mintableTokens c)%Z).
Proof.
  apply (reachable_consistent MintExamples.safeMint MintExamples.minted_once).
  - apply safeMint_no_reentry.
  - apply minted_once_reachable.
Defined.

(** X6 on the example collection after one mint: token 1, the next one,
    has no record. *)
Lemma token_ids_are_given_out_once_witness :
  RAIR_ERC721.tokenToCollection MintExamples.minted_once
    !! (RAIR_ERC721.endingToken (MintExamples.first 2 1)
        - RAIR_ERC721.mintableTokens (MintExamples.first 2 1))%Z
  = None.
Proof.
  apply (proj2 (token_ids_are_given_out_once MintExamples.safeMint
                  MintExamples.minted_once safeMint_no_reentry
                  minted_once_reachable)
           ContractExamples.from_creator ContractExamples.collector 0%Z
           MintExamples.minted_twice
           [RAIR_ERC721.TransfersEnabled 0 "First"]).
  - apply minted_twice_step.
  - reflexivity.
Defined.

(** X7 on the example collection sold out: token 1 changes hands. *)
Lemma sold_out_collections_transfer_freely_witness :
  RAIR_ERC721.enableResaleAt (MintExamples.first 0 0) = 0%Z
  ∧ RAIR_ERC721._beforeTokenTransfer MintExamples.accept
      ContractExamples.collector ContractExamples.creator 1
      MintExamples.sold_out
    = RAIR_ERC721.super__beforeTokenTransfer MintExamples.accept
        ContractExamples.collector ContractExamples.creator 1
        MintExamples.sold_out.
Proof.
  apply (sold_out_collections_transfer_freely MintExamples.safeMint
           MintExamples.sold_out MintExamples.accept).
  - apply safeMint_no_reentry.
  - apply sold_out_reachable.
  - vm_compute. reflexivity.
  - reflexivity.
Defined.

(** X8 on the example collection: token 0 has rank 0, token 1 gets rank 1
    when it is minted, and token 7, never minted, reads as 7. *)
Lemma tokenToCollectionIndex_is_the_rank_witness :
  (∃ c, RAIR_ERC721.collection_at MintExamples.minted_once 0
        = RAIR_ERC721.Success c
        ∧ RAIR_ERC721.tokenToCollectionIndex 0 MintExamples.minted_once
          = RAIR_ERC721.Success (0 - RAIR_ERC721.startingToken c)%Z
        ∧ (0 ≤ 0 - RAIR_ERC721.startingToken c
           < RAIR_ERC721.endingToken c - RAIR_ERC721.startingToken c
             - RAIR_ERC721.mintableTokens c)%Z)
  ∧ RAIR_ERC721.tokenToCollectionIndex
      (RAIR_ERC721.endingToken (MintExamples.first 2 1)
       - RAIR_ERC721.mintableTokens (MintExamples.first 2 1))
      MintExamples.minted_twice
    = RAIR_ERC721.Success
        (RAIR_ERC721.endingToken (MintExamples.first 2 1)
         - RAIR_ERC721.startingToken (MintExamples.first 2 1)
         - RAIR_ERC721.mintableTokens (MintExamples.first 2 1))%Z
  ∧ RAIR_ERC721.tokenToCollectionIndex 7 MintExamples.minted_once
    = RAIR_ERC721.Success 7%Z.
Proof.
  destruct (tokenToCollectionIndex_is_the_rank MintExamples.safeMint
              MintExamples.minted_once safeMint_no_reentry
              minted_once_reachable) as (Hrank & Hnext & Hnone).
  split; [|split].
  - apply (Hrank 0%Z 0%Z). vm_compute. reflexivity.
  - apply (Hnext ContractExamples.from_creator ContractExamples.collector 0%Z
             MintExamples.minted_twice [RAIR_ERC721.TransfersEnabled 0 "First"]).
    + apply minted_twice_step.
    + reflexivity.
  - apply (proj2 (Hnone 7%Z ltac:(vm_compute; reflexivity) ltac:(lia))).
    unfold RAIR_ERC721.getCollectionCount. simpl. lia.
Defined.

Lemma minted_twice_run :
  RAIR_ERC721.mints_of MintExamples.safeMint 0 2
    MintExamples.created MintExamples.minted_twice.
Proof.
  eapply RAIR_ERC721.mints_of_mint; [apply minted_once_step|].
  eapply RAIR_ERC721.mints_of_mint; [apply minted_twice_step|].
  apply RAIR_ERC721.mints_of_refl.
Qed.

(** X9 on the example collection, created with [_resaleAt] 2: after two
    mints one token is left, and token 0 changes hands. *)
Lemma transfers_open_after_enough_mints_witness :
  (Z.of_nat 2 ≤ RAIR_ERC721.mintableTokens (MintExamples.first 3 2))%Z
  ∧ (∃ c', RAIR_ERC721.collection_at MintExamples.minted_twice 0
           = RAIR_ERC721.Success c'
           ∧ RAIR_ERC721.mintableTokens c'
             = (RAIR_ERC721.mintableTokens (MintExamples.first 3 2) - Z.of_nat 2)%Z
           ∧ RAIR_ERC721.enableResaleAt c'
             = Z.max 0 (RAIR_ERC721.enableResaleAt (MintExamples.first 3 2)
                        - Z.of_nat 2))
  ∧ RAIR_ERC721._beforeTokenTransfer MintExamples.accept
      ContractExamples.collector ContractExamples.creator 0
      MintExamples.minted_twice
    = RAIR_ERC721.super__beforeTokenTransfer MintExamples.accept
        ContractExamples.collector ContractExamples.creator 0
        MintExamples.minted_twice.
Proof.
  destruct (transfers_open_after_enough_mints MintExamples.safeMint
              MintExamples.created MintExamples.minted_twice 0%Z 2
              (MintExamples.first 3 2) safeMint_no_reentry created_reachable
              eq_refl minted_twice_run) as (Hcount & Hleft & Hhook).
  split; [done|]. split; [done|].
  apply (Hhook MintExamples.accept ContractExamples.collector
           ContractExamples.creator 0%Z).
  - vm_compute. reflexivity.
  - vm_compute. discriminate.
  - vm_compute. discriminate.
  - simpl. lia.
Defined.

(** X10 on a sale of 1000 with a fee of 30000 hundred-thousandths: a
    royalty of 300 for the creator. *)
Lemma royaltyInfo_bounded_witness :
  ∃ amount payload,
    RAIR_ERC721.royaltyInfo MintExamples.getRoleMember 30000 7 1000 []
      MintExamples.created
    = RAIR_ERC721.Success (ContractExamples.creator, amount, payload)
    ∧ amount = (1000 * 30000 / 100000)%Z
    ∧ (0 ≤ amount ≤ 1000)%Z
    ∧ length payload = 32%nat
    ∧ RAIR_ERC721.from_big_endian payload = 7%Z.
Proof.
  apply (proj1 (proj1 (royaltyInfo_bounded MintExamples.getRoleMember
                         MintExamples.created 30000%Z 7%Z 1000%Z []
                         ltac:(lia) ltac:(lia)
                         ltac:(unfold RAIR_ERC721.max_uint; lia))
                  ContractExamples.creator eq_refl)).
  unfold RAIR_ERC721.max_uint. lia.
Defined.


(** ** The readings of the registry on the example corpus *)

Lemma refused_contracts_refused :
  utils.Interface (factoryAbi refused_contracts) = None.
Proof. vm_compute. reflexivity. Qed.

(** X12 on the example corpus. *)
Lemma handler_follows_the_event_name_witness :
  (∀ k e, merged (corpus contracts) !! k = Some e →
     operation e = insertionMapping_at (split_head "(" (signature e))
     ∧ (∀ handler,
          insertionMapping !! split_head "(" (signature e) = Some handler →
          operation e = Some handler)
     ∧ (insertionMapping !! split_head "(" (signature e) = None →
        split_head "(" (signature e) ∈ Object_prototype →
        operation e = Some (ObjectPrototype (split_head "(" (signature e))))
     ∧ (insertionMapping !! split_head "(" (signature e) = None →
        split_head "(" (signature e) ∉ Object_prototype →
        operation e = None))
  ∧ (∀ k1 k2 e1 e2,
       merged (corpus contracts) !! k1 = Some e1 →
       merged (corpus contracts) !! k2 = Some e2 →
       split_head "(" (signature e1) = split_head "(" (signature e2) →
       operation e1 = operation e2).
Proof.
  apply (handler_follows_the_event_name contracts). apply contracts_registry.
Defined.

(** X13 on the example corpus, for the identifier of [Transfer]. *)
Lemma registry_identifiers_witness :
  Transfer_id ∈ dom (merged (corpus contracts)) ↔
  ∃ x sig, x ∈ corpus contracts
           ∧ sig ∈ event_signatures x.1
           ∧ matching_items x.1 sig ≠ []
           ∧ Transfer_id = utils.id sig.
Proof.
  apply (registry_identifiers contracts). apply contracts_registry.
Defined.

(** X14 on the event declared twice in the example minter ABI. *)
Lemma same_name_same_fragment_witness :
  abi TokenMinted_entry = abi TokenMinted_short_entry
  ∧ operation TokenMinted_entry = operation TokenMinted_short_entry.
Proof.
  apply (same_name_same_fragment (minterAbi contracts) false
           (registered (minterAbi contracts) false)
           TokenMinted_id TokenMinted_short_id).
  - apply (contracts_value (minterAbi contracts, false)). by_compute.
  - vm_compute. reflexivity.
  - vm_compute. reflexivity.
  - reflexivity.
Defined.

(** X15 on the corpus with a refused factory ABI. *)
Lemma construction_aborts_on_a_refused_abi_witness :
  value_of (masterMapping refused_contracts) = None.
Proof.
  apply (proj2 (construction_aborts_on_a_refused_abi refused_contracts)).
  exists (factoryAbi refused_contracts, false). split; [by_compute|].
  apply refused_contracts_refused.
Defined.

(** X16 on the corpus with the human-readable credit handler ABI: the
    one line on the console is the line of its event. *)
Lemma console_reports_the_missing_fragments_witness :
  "Couldn't find ABI for signature " +:+ ReceivedTokens_signature
    ∈ ["Couldn't find ABI for signature " +:+ ReceivedTokens_signature] ↔
  "Couldn't find ABI for signature " +:+ ReceivedTokens_signature ∈ []
  ∨ ∃ x sig, x ∈ corpus readable_contracts
             ∧ sig ∈ event_signatures x.1
             ∧ matching_items x.1 sig = []
             ∧ "Couldn't find ABI for signature " +:+ ReceivedTokens_signature
               = "Couldn't find ABI for signature " +:+ sig.
Proof.
  apply (proj1 (console_reports_the_missing_fragments readable_contracts []
                  ["Couldn't find ABI for signature " +:+ ReceivedTokens_signature]
                  (merged (corpus readable_contracts))
                  ltac:(rewrite (masterMapping_Normal readable_contracts []
                                   readable_contracts_well_formed);
                        f_equal; vm_compute; reflexivity))).
Defined.
